(** * Streamlit.py: change reconciliation and update application

    A shallow embedding of [src/Streamlit.py]: the table snapshots
    (pandas data frames), the cell-by-cell comparison of an original and an
    edited snapshot ([update_changed_cells], lines 56-78), the execution of
    the resulting updates on a database session (lines 80-99), the table
    reader [get_data], the schema mutator [add_column_to_snowflake] and the
    page slicing of the save action's call site. *)

From Stdlib Require Import List String ZArith Bool Arith Lia Sorted Permutation.
Import ListNotations.
Open Scope string_scope.
Open Scope list_scope.

(** ** Cell values

    A cell holds a scalar and carries the dtype of its column, as a pandas
    frame does.  [VNum n] is a cell of an int64 column (an int64 holds
    [-2^63 <= n < 2^63]); [VFloat m e] is the float64 number [m * 2^e] and
    [VNaN] the not-a-number of a float64 column (it also fills absent
    cells); [VNone], [VStr] and [VNanObj] are cells of an object column:
    Python's [None], a string, and a NaN that is a Python object of its
    own.  A NaN object is known by its identity: one kept in an object
    column ([Stored]; [np.nan] is one such object), or one made when a
    float64 NaN is boxed into an object row ([Boxed]).  Object columns
    that hold numbers, and the infinities, are not covered. *)

Inductive nan_id : Type :=
| Stored (n : nat)
| Boxed (row col : nat).

Inductive value : Type :=
| VNone
| VNaN
| VStr (s : string)
| VNum (n : Z)
| VFloat (m e : Z)
| VNanObj (id : nan_id).

(** [pd.isna] on a scalar. *)
Definition isna (v : value) : bool :=
  match v with
  | VNone | VNaN | VNanObj _ => true
  | VStr _ | VNum _ | VFloat _ _ => false
  end.

(** The float64 nearest to an integer (ties to even), as an integer:
    below 2^53 every integer is a float64; above, the low bits are
    rounded away. *)
Definition round64 (n : Z) : Z :=
  let a := Z.abs n in
  if (a <? 2 ^ 53)%Z then n
  else
    let k := (Z.log2 a - 52)%Z in
    let q := Z.shiftr a k in
    let r := (a - Z.shiftl q k)%Z in
    let half := (2 ^ (k - 1))%Z in
    let q' := if (half <? r)%Z || ((r =? half)%Z && Z.odd q)
              then (q + 1)%Z else q in
    (Z.sgn n * Z.shiftl q' k)%Z.

(** [m * 2^e = m' * 2^e']. *)
Definition float_eqb (m e m' e' : Z) : bool :=
  let d := Z.min e e' in
  (m * 2 ^ (e - d) =? m' * 2 ^ (e' - d))%Z.

(** Python's [==] on scalars as they come out of a row: numpy compares an
    int64 with a float64 after casting the integer to float64; NaN is
    equal to nothing, not even itself; [None] is equal to [None] only. *)
Definition py_eq (a b : value) : bool :=
  match a, b with
  | VNone, VNone => true
  | VStr s, VStr t => String.eqb s t
  | VNum m, VNum n => Z.eqb m n
  | VFloat m e, VFloat m' e' => float_eqb m e m' e'
  | VNum n, VFloat m e => float_eqb (round64 n) 0 m e
  | VFloat m e, VNum n => float_eqb m e (round64 n) 0
  | _, _ => false
  end.

(** Python's [!=]. *)
Definition py_ne (a b : value) : bool := negb (py_eq a b).

Definition nan_id_eq_dec (a b : nan_id) : {a = b} + {a <> b}.
Proof.
  decide equality; apply Nat.eq_dec.
Defined.


(** ** Exceptions and results *)

Inductive label : Type :=
| LCol (c : string)
| LRow (i : nat).

Inductive exn : Type :=
| KeyError (k : label)
| ValueError
| TypeError
| UnboundLocalError (var : string)
| DatabaseError (msg : string).

Inductive result (A : Type) : Type :=
| Ok (a : A)
| Raise (e : exn).

Arguments Ok {A} a.
Arguments Raise {A} e.

Definition rbind {A B : Type} (r : result A) (k : A -> result B) : result B :=
  match r with
  | Ok a => k a
  | Raise e => Raise e
  end.

Notation "x <- r ;; k" := (rbind r (fun x => k))
  (at level 61, r at next level, right associativity).

(** ** Data frames and rows *)

(** A frame after [reset_index(drop=True)]: its rows are labelled
    [0 .. n-1], so [.loc[i]] is positional.  A row stores its cells in
    column order; a cell the row does not store is a NaN, which is what
    pandas fills absent cells with.  What a row look-up gives for a stored
    cell depends on the dtypes of the columns: see [read_row]. *)
Record DataFrame : Type := mkFrame {
  columns : list string;
  rows : list (list value)
}.

(** One row taken out of a frame: the column labels and the cells. *)
Record Series : Type := mkSeries {
  index : list string;
  cells : list value
}.

(** What [row[label]] evaluates to: a scalar when the label occurs once, a
    sub-series when the label is duplicated. *)
Inductive item : Type :=
| Scalar (v : value)
| SubSeries (vs : list value).

Definition reset_index (df : DataFrame) : DataFrame := df.

Definition len (df : DataFrame) : nat := List.length (rows df).

(** The dtypes of the columns. *)
Inductive dtype : Type :=
| Int64
| Float64
| Object.

Definition dtype_of (v : value) : dtype :=
  match v with
  | VNum _ => Int64
  | VFloat _ _ | VNaN => Float64
  | VNone | VStr _ | VNanObj _ => Object
  end.

(** The dtype a row is built in: object as soon as one column is, float64
    when the columns are numeric and one is float64, int64 otherwise.  The
    dtypes of the columns are those of the row's cells: in a frame whose
    columns hold one dtype each, every row has the same. *)
Definition common_dtype (cells : list value) : dtype :=
  if existsb (fun v => match dtype_of v with Object => true | _ => false end)
       cells
  then Object
  else if existsb (fun v => match dtype_of v with Float64 => true | _ => false end)
            cells
       then Float64
       else Int64.

(** A cell as it stands in a row of dtype [d]: in a float64 row an integer
    is cast to the nearest float64; in an object row the numbers stay the
    numpy scalars they are and a float64 NaN is boxed into an object of
    its own, made for cell [j] of row [i]. *)
Definition cast (d : dtype) (i j : nat) (v : value) : value :=
  match d, v with
  | Float64, VNum n => VFloat (round64 n) 0
  | Object, VNaN => VNanObj (Boxed i j)
  | _, _ => v
  end.

Fixpoint cast_from (d : dtype) (i j : nat) (cells : list value)
  : list value :=
  match cells with
  | [] => []
  | v :: cells' => cast d i j v :: cast_from d i (S j) cells'
  end.

(** The stored cells of a row under [n] columns, absent cells filled. *)
Definition pad (n : nat) (r : list value) : list value :=
  firstn n (r ++ repeat VNaN n).

(** The cells of row [i] as [df.loc[i]] holds them: the stored cells in
    the common dtype of the columns. *)
Definition read_row (i : nat) (cols : list string) (r : list value)
  : list value :=
  let stored_cells := pad (List.length cols) r in
  cast_from (common_dtype stored_cells) i 0 stored_cells.

(** Every column of the frame holds cells of one dtype, as the columns of
    a pandas frame do: the rows then all have the frame's common dtype. *)
Definition one_dtype_per_column (df : DataFrame) : Prop :=
  forall r r', In r (rows df) -> In r' (rows df) ->
    map dtype_of (pad (List.length (columns df)) r)
    = map dtype_of (pad (List.length (columns df)) r').

(** [df.loc[i]]. *)
Definition loc (df : DataFrame) (i : nat) : result Series :=
  match nth_error (rows df) i with
  | Some r => Ok (mkSeries (columns df) (read_row i (columns df) r))
  | None => Raise (KeyError (LRow i))
  end.

(** All cells of a row stored under one label. *)
Fixpoint select (lab : string) (idx : list string) (vals : list value)
  : list value :=
  match idx with
  | [] => []
  | c :: idx' =>
      let rest := select lab idx' (tl vals) in
      if String.eqb c lab then hd VNaN vals :: rest else rest
  end.

(** [row[label]]. *)
Definition getitem (row : Series) (lab : string) : result item :=
  match select lab (index row) (cells row) with
  | [] => Raise (KeyError (LCol lab))
  | [v] => Ok (Scalar v)
  | vs => Ok (SubSeries vs)
  end.

(** The truth value of [pd.isna(x)] in a condition: on a sub-series
    [pd.isna] gives an array, whose truth value is ambiguous. *)
Definition isna_cond (x : item) : result bool :=
  match x with
  | Scalar v => Ok (isna v)
  | SubSeries _ => Raise ValueError
  end.

(** Lines 69-70: [if a != b: row_changes[col] = b].  The result is the
    value to record, if any.  Comparing with a sub-series gives an array,
    whose truth value is ambiguous. *)
Definition changed_to (a b : item) : result (option value) :=
  match a, b with
  | Scalar x, Scalar y => Ok (if py_ne x y then Some y else None)
  | _, _ => Raise ValueError
  end.

(** A value that is put in a Python set must be hashable: a scalar is, a
    series is not. *)
Definition hashable (x : item) : result value :=
  match x with
  | Scalar v => Ok v
  | SubSeries _ => Raise TypeError
  end.

(** ** Dictionaries and sets *)

(** [row_changes]: an insertion-ordered dictionary. *)
Definition dict : Type := list (string * value).

Fixpoint dict_set (d : dict) (k : string) (v : value) : dict :=
  match d with
  | [] => [(k, v)]
  | (k', v') :: d' =>
      if String.eqb k' k then (k', v) :: d' else (k', v') :: dict_set d' k v
  end.

(** Python's [hash] of an integer, which is also the hash of the float64
    of that value. *)
Definition py_hash (n : Z) : Z :=
  let h := (Z.sgn n * (Z.abs n mod (2 ^ 61 - 1)))%Z in
  if (h =? -1)%Z then (-2)%Z else h.

(** Whether a set that holds [b] already holds [a]: the same object, or
    equal hashes and [a == b].  Equal strings and equal numbers have equal
    hashes; an int64 and a float64 that [==] takes for equal after
    rounding are the same member only when their hashes agree as well; a
    NaN object is a member only as itself; a float64 NaN read from a
    float64 row is a new object at every read, and never a member. *)
Definition same_key (a b : value) : bool :=
  match a, b with
  | VNone, VNone => true
  | VStr s, VStr t => String.eqb s t
  | VNum m, VNum n => Z.eqb m n
  | VFloat m e, VFloat m' e' => float_eqb m e m' e'
  | VNum n, VFloat m e | VFloat m e, VNum n =>
      float_eqb (round64 n) 0 m e && (py_hash n =? py_hash (round64 n))%Z
  | VNanObj x, VNanObj y => if nan_id_eq_dec x y then true else false
  | _, _ => false
  end.

(** [updated_keys]: a set, as the list of its members in insertion order. *)
Definition set_add (k : value) (s : list value) : list value :=
  if existsb (same_key k) s then s else s ++ [k].


(** ** The change reconciler (lines 56-78) *)

Record change : Type := mkChange {
  key : value;
  column : string;
  new_value : value
}.

(** Lines 66-70: the loop over the original frame's columns. *)
Fixpoint scan_columns (original_row edited_row : Series) (cols : list string)
  (row_changes : dict) : result dict :=
  match cols with
  | [] => Ok row_changes
  | col :: cols' =>
      o <- getitem original_row col ;;
      na_o <- isna_cond o ;;
      both_na <- (if na_o
                  then e <- getitem edited_row col ;; isna_cond e
                  else Ok false) ;;
      if both_na then scan_columns original_row edited_row cols' row_changes
      else
        e <- getitem edited_row col ;;
        upd <- changed_to o e ;;
        match upd with
        | Some new_val =>
            scan_columns original_row edited_row cols'
              (dict_set row_changes col new_val)
        | None => scan_columns original_row edited_row cols' row_changes
        end
  end.

(** Lines 73-78: one change per item of [row_changes], in the dictionary's
    order, all with the row's key. *)
Definition emit_changes (k : value) (row_changes : dict) : list change :=
  map (fun cv => mkChange k (fst cv) (snd cv)) row_changes.

(** The accumulators [updated_keys] and [changes]. *)
Definition acc : Type := (list value * list change)%type.

(** Lines 63-78: the body of the loop over row positions.  The key is read
    from the original row, at line 72 for the set and again at line 75 for
    each change; the reads give the same value, so one binding stands for
    all of them. *)
Definition row_step (original_df edited_df : DataFrame) (unique_col : string)
  (st : acc) (i : nat) : result acc :=
  original_row <- loc original_df i ;;
  edited_row <- loc edited_df i ;;
  row_changes <- scan_columns original_row edited_row (columns original_df) [] ;;
  match row_changes with
  | [] => Ok st
  | _ :: _ =>
      k <- (x <- getitem original_row unique_col ;; hashable x) ;;
      Ok (set_add k (fst st), snd st ++ emit_changes k row_changes)
  end.

(** [for i in range(n)], threading the accumulators and stopping at the
    first exception. *)
Fixpoint for_range (body : acc -> nat -> result acc) (idxs : list nat) (st : acc)
  : result acc :=
  match idxs with
  | [] => Ok st
  | i :: idxs' => st' <- body st i ;; for_range body idxs' st'
  end.

(** Lines 57-78 of [update_changed_cells]: the updated keys and the
    changes. *)
Definition reconcile (original_df edited_df : DataFrame) (unique_col : string)
  : result acc :=
  let original_df := reset_index original_df in
  let edited_df := reset_index edited_df in
  for_range (row_step original_df edited_df unique_col)
    (seq 0 (len original_df)) ([], []).

(** ** The database session

    The driver ([snowflake.connector], [pd.read_sql]) is outside the
    repository.  A session works on its own view of the database; what the
    other sessions and later operations see is the [store].  In autocommit
    mode every statement that succeeds is committed at once; otherwise the
    view reaches the store at [commit] and is dropped at [close].  The mode
    is the session parameter AUTOCOMMIT: [get_connection] passes no value
    for it (lines 39-46), so a session has the account's setting, which is
    on unless it was changed. *)

Inductive statement : Type :=
| SelectAll (table : string)
| Update (table set_col where_col : string) (new_val key_val : value)
| AlterAddColumn (table col : string).

Definition database : Type := list (string * DataFrame).

(** The messages shown to the user. *)
Inductive notice : Type :=
| RowsUpdated (n : nat)
| ColumnAdded (col : string)
| ErrorNotice (e : exn)
| AddColumnFailed (e : exn)
| NoChangesToSave.

Definition is_error (m : notice) : bool :=
  match m with
  | ErrorNotice _ | AddColumnFailed _ => true
  | RowsUpdated _ | ColumnAdded _ | NoChangesToSave => false
  end.

(** What an operation does to the driver and shows on the page. *)
Inductive event : Type :=
| Connect (c : nat)
| OpenCursor (c : nat)
| Execute (c : nat) (q : statement)
| Commit (c : nat)
| CloseCursor (c : nat)
| Close (c : nat)
| Ui (m : notice).

(** What the operations act on: whether the server can be reached, the
    commit mode of the sessions, the committed database, the open sessions
    with their views, the number the next connection gets, and the events
    so far, oldest first. *)
Record world : Type := mkWorld {
  reachable : bool;
  autocommit : bool;
  store : database;
  sessions : list (nat * database);
  next_conn : nat;
  trace : list event
}.

Definition log (ev : event) (w : world) : world :=
  mkWorld (reachable w) (autocommit w) (store w) (sessions w) (next_conn w)
    (trace w ++ [ev]).

Definition set_store (db : database) (w : world) : world :=
  mkWorld (reachable w) (autocommit w) db (sessions w) (next_conn w) (trace w).

Definition set_sessions (ss : list (nat * database)) (w : world) : world :=
  mkWorld (reachable w) (autocommit w) (store w) ss (next_conn w) (trace w).

Fixpoint view_of (c : nat) (ss : list (nat * database)) : option database :=
  match ss with
  | [] => None
  | (c', v) :: ss' => if Nat.eqb c' c then Some v else view_of c ss'
  end.

Fixpoint set_view (c : nat) (v : database) (ss : list (nat * database))
  : list (nat * database) :=
  match ss with
  | [] => []
  | (c', v') :: ss' =>
      if Nat.eqb c' c then (c', v) :: ss' else (c', v') :: set_view c v ss'
  end.

Definition drop_session (c : nat) (ss : list (nat * database))
  : list (nat * database) :=
  filter (fun s => negb (Nat.eqb (fst s) c)) ss.

(** Computations that act on the world and may raise. *)
Definition M (A : Type) : Type := world -> result A * world.

Definition ret {A : Type} (a : A) : M A := fun w => (Ok a, w).

Definition mbind {A B : Type} (m : M A) (k : A -> M B) : M B :=
  fun w =>
    match m w with
    | (Ok a, w') => k a w'
    | (Raise e, w') => (Raise e, w')
    end.

Notation "x <~ m ;; k" := (mbind m (fun x => k))
  (at level 61, m at next level, right associativity).

Definition lift {A : Type} (r : result A) : M A := fun w => (r, w).

(** [try: body except Exception as e: handler]. *)
Definition try_except {A : Type} (body : M A) (handler : exn -> M A) : M A :=
  fun w =>
    match body w with
    | (Ok a, w') => (Ok a, w')
    | (Raise e, w') => handler e w'
    end.

(** [... finally: final]: [final] runs on every exit; an exception of its
    own replaces the outcome. *)
Definition finally {A : Type} (body : M A) (final : M unit) : M A :=
  fun w =>
    match body w with
    | (r, w') =>
        match final w' with
        | (Ok _, w'') => (r, w'')
        | (Raise e, w'') => (Raise e, w'')
        end
    end.

Fixpoint for_each {A : Type} (xs : list A) (body : A -> M unit) : M unit :=
  match xs with
  | [] => ret tt
  | x :: xs' => _ <~ body x ;; for_each xs' body
  end.

Definition st_notice (m : notice) : M unit := fun w => (Ok tt, log (Ui m) w).

Section Driver.

(** What the server does with one statement on a session's view: the new
    view and the rows returned, or an error that leaves the view as it
    was. *)
Variable run_sql : statement -> database -> result (database * DataFrame).

(** Lines 38-46. *)
Definition get_connection : M nat :=
  fun w =>
    if reachable w then
      let c := next_conn w in
      (Ok c,
       mkWorld (reachable w) (autocommit w) (store w)
         ((c, store w) :: sessions w) (S c) (trace w ++ [Connect c]))
    else (Raise (DatabaseError "connection failed"), w).

(** [conn.cursor()]: the cursor works on its connection's session. *)
Definition cursor (conn : nat) : M nat :=
  fun w => (Ok conn, log (OpenCursor conn) w).

(** [cursor.execute(query, params)]. *)
Definition execute (cur : nat) (q : statement) : M DataFrame :=
  fun w =>
    let w1 := log (Execute cur q) w in
    match view_of cur (sessions w1) with
    | None => (Raise (DatabaseError "connection is closed"), w1)
    | Some v =>
        match run_sql q v with
        | Raise e => (Raise e, w1)
        | Ok (v', out) =>
            let w2 := set_sessions (set_view cur v' (sessions w1)) w1 in
            (Ok out, if autocommit w2 then set_store v' w2 else w2)
        end
    end.

(** [conn.commit()]. *)
Definition commit (conn : nat) : M unit :=
  fun w =>
    let w1 := log (Commit conn) w in
    match view_of conn (sessions w1) with
    | None => (Raise (DatabaseError "connection is closed"), w1)
    | Some v => (Ok tt, if autocommit w1 then w1 else set_store v w1)
    end.

Definition cursor_close (cur : nat) : M unit :=
  fun w => (Ok tt, log (CloseCursor cur) w).

(** [conn.close()]: the session ends, and what it did not commit with
    it. *)
Definition close (conn : nat) : M unit :=
  fun w =>
    (Ok tt, set_sessions (drop_session conn (sessions w)) (log (Close conn) w)).

(** [pd.read_sql(query, conn)]. *)
Definition read_sql (q : statement) (conn : nat) : M DataFrame :=
  execute conn q.

(** Lines 49-53. *)
Definition get_data (table : string) : M DataFrame :=
  conn <~ get_connection ;;
  df <~ read_sql (SelectAll table) conn ;;
  _ <~ close conn ;;
  ret df.

(** The statement of lines 85-90 for one change. *)
Definition update_statement (table_name unique_col : string) (c : change)
  : statement :=
  Update table_name (column c) unique_col (new_value c) (key c).

(** Lines 84-90: one statement per change, up to the first that fails. *)
Definition execute_all (cur : nat) (table_name unique_col : string)
  (changes : list change) : M unit :=
  for_each changes
    (fun c =>
       _ <~ execute cur (update_statement table_name unique_col c) ;;
       ret tt).

(** Lines 80-99 of [update_changed_cells]. *)
Definition apply_changes (table_name unique_col : string)
  (updated_keys : list value) (changes : list change) : M unit :=
  match changes with
  | [] => st_notice NoChangesToSave
  | _ :: _ =>
      conn <~ get_connection ;;
      cur <~ cursor conn ;;
      finally
        (try_except
           (_ <~ execute_all cur table_name unique_col changes ;;
            _ <~ commit conn ;;
            st_notice (RowsUpdated (List.length updated_keys)))
           (fun e => st_notice (ErrorNotice e)))
        (_ <~ cursor_close cur ;; close conn)
  end.

(** Lines 56-99. *)
Definition update_changed_cells (original_df edited_df : DataFrame)
  (table_name unique_col : string) : M unit :=
  st <~ lift (reconcile original_df edited_df unique_col) ;;
  apply_changes table_name unique_col (fst st) (snd st).

(** Lines 102-113.  When [get_connection] raises, [cursor] is not bound
    yet and the [finally] clause's [cursor.close()] raises in its turn. *)
Definition add_column_to_snowflake (table_name column_name : string)
  : M unit :=
  fun w =>
    match get_connection w with
    | (Raise e, w1) =>
        match st_notice (AddColumnFailed e) w1 with
        | (_, w2) => (Raise (UnboundLocalError "cursor"), w2)
        end
    | (Ok conn, w1) =>
        match cursor conn w1 with
        | (Raise e, w2) => (Raise e, w2)
        | (Ok cur, w2) =>
            finally
              (try_except
                 (_ <~ execute cur (AlterAddColumn table_name column_name) ;;
                  _ <~ commit conn ;;
                  st_notice (ColumnAdded column_name))
                 (fun e => st_notice (AddColumnFailed e)))
              (_ <~ cursor_close cur ;; close conn) w2
        end
    end.

(** Line 188: the save button. *)
Definition save_changes (df1_filtered edited_df1 : DataFrame) : M unit :=
  update_changed_cells df1_filtered edited_df1 "SampleTest" "CODE".

(** What the server makes of a batch of statements run one after the other
    on a session's view: the final view, or the first error. *)
Fixpoint run_batch (qs : list statement) (v : database) : result database :=
  match qs with
  | [] => Ok v
  | q :: qs' => r <- run_sql q v ;; run_batch qs' (fst r)
  end.

End Driver.

(** ** The page shown in the grid (lines 152-161) *)

Definition rows_per_page : nat := 3.

(** [df.iloc[start:stop]]. *)
Definition iloc (df : DataFrame) (start stop : nat) : DataFrame :=
  mkFrame (columns df) (firstn (stop - start) (skipn start (rows df))).

(** Lines 159-161: the page shown for page number [page_structure]. *)
Definition df1_page (df1_filtered : DataFrame) (page_structure : nat)
  : DataFrame :=
  let start_idx := page_structure * rows_per_page in
  let end_idx := start_idx + rows_per_page in
  iloc df1_filtered start_idx end_idx.

(** The grid hands back the page it was given with its cells edited: the
    same columns and as many rows. *)
Definition edited_from (page edited : DataFrame) : Prop :=
  columns edited = columns page /\ len edited = len page.

(** ** A reference server

    A table store on which a statement fails when it names a table or a
    column that does not exist. *)

Fixpoint find_table (t : string) (db : database) : option DataFrame :=
  match db with
  | [] => None
  | (t', df) :: db' => if String.eqb t' t then Some df else find_table t db'
  end.

Fixpoint put_table (t : string) (df : DataFrame) (db : database) : database :=
  match db with
  | [] => []
  | (t', df') :: db' =>
      if String.eqb t' t then (t', df) :: db' else (t', df') :: put_table t df db'
  end.

Fixpoint position (c : string) (cols : list string) : option nat :=
  match cols with
  | [] => None
  | c' :: cols' =>
      if String.eqb c' c then Some 0
      else option_map S (position c cols')
  end.

Fixpoint set_cell (j : nat) (v : value) (r : list value) : list value :=
  match j, r with
  | 0, [] => [v]
  | 0, _ :: r' => v :: r'
  | S j', [] => VNaN :: set_cell j' v []
  | S j', x :: r' => x :: set_cell j' v r'
  end.

(** SQL's [=]: a null is equal to nothing. *)
Definition sql_eq (a b : value) : bool := negb (isna a) && py_eq a b.

Definition sql_server (q : statement) (db : database)
  : result (database * DataFrame) :=
  match q with
  | SelectAll t =>
      match find_table t db with
      | Some df => Ok (db, df)
      | None => Raise (DatabaseError "table does not exist")
      end
  | Update t set_col where_col new_val key_val =>
      match find_table t db with
      | None => Raise (DatabaseError "table does not exist")
      | Some df =>
          match position set_col (columns df), position where_col (columns df) with
          | Some j, Some k =>
              let upd r :=
                if sql_eq (nth k r VNaN) key_val then set_cell j new_val r else r in
              Ok (put_table t (mkFrame (columns df) (map upd (rows df))) db,
                  mkFrame [] [])
          | _, _ => Raise (DatabaseError "invalid identifier")
          end
      end
  | AlterAddColumn t col =>
      match find_table t db with
      | None => Raise (DatabaseError "table does not exist")
      | Some df =>
          match position col (columns df) with
          | Some _ => Raise (DatabaseError "column already exists")
          | None => Ok (put_table t (mkFrame (columns df ++ [col]) (rows df)) db,
                        mkFrame [] [])
          end
      end
  end.

Definition initial_world (auto : bool) (db : database) : world :=
  mkWorld true auto db [] 0 [].

(** ** The reconciler in the spec's words

    Section 4.1 of the spec: for each row position and each column of the
    original, skip the cell when both values are null, otherwise compare
    and, when they are unequal, emit a change keyed by the original row's
    value of the unique column. *)

(** The label occurs once among the columns. *)
Definition single (c : string) (cols : list string) : Prop :=
  count_occ string_dec cols c = 1.

(** The cell of a row under a column, by the column's position. *)
Definition at_col (cols : list string) (r : list value) (c : string) : value :=
  match position c cols with
  | Some j => nth j r VNaN
  | None => VNaN
  end.

(** The cell of row [i] under column [c] as the row look-up reads it. *)
Definition cell (df : DataFrame) (i : nat) (c : string) : value :=
  at_col (columns df) (read_row i (columns df) (nth i (rows df) [])) c.

(** The same cell as the frame stores it. *)
Definition stored (df : DataFrame) (i : nat) (c : string) : value :=
  at_col (columns df) (nth i (rows df) []) c.

(** Lines 67-69 on the two cells of a column, as read from the rows: they
    are not both null and [!=] holds. *)
Definition differs (a b : value) : bool :=
  negb (isna a && isna b) && py_ne a b.

Definition changed_columns (o e : DataFrame) (i : nat) : list string :=
  filter (fun c => differs (cell o i c) (cell e i c)) (columns o).

Definition row_changes_spec (o e : DataFrame) (u : string) (i : nat)
  : list change :=
  map (fun c => mkChange (cell o i u) c (cell e i c)) (changed_columns o e i).

Definition reconcile_spec (o e : DataFrame) (u : string) : list change :=
  flat_map (row_changes_spec o e u) (seq 0 (len o)).

(** The accumulators after row [i], given them before. *)
Definition step_spec (o e : DataFrame) (u : string) (st : acc) (i : nat) : acc :=
  match row_changes_spec o e u i with
  | [] => st
  | g => (set_add (cell o i u) (fst st), snd st ++ g)
  end.

(** The frames can be compared column by column: the original's columns are
    distinct and each is a column of the edited frame, once. *)
Definition columns_match (o e : DataFrame) : Prop :=
  NoDup (columns o) /\ forall c, In c (columns o) -> single c (columns e).

(** ** The cells reported, and their order

    The cells that differ, row by row and, within a row, in the order of
    the original's columns. *)

Definition reported_cells (o e : DataFrame) : list (nat * string) :=
  flat_map (fun i => map (pair i) (changed_columns o e i)) (seq 0 (len o)).

(** Change [c] reports cell [p]: it carries the original row's key, the
    cell's column and the edited value. *)
Definition reports (o e : DataFrame) (u : string) (p : nat * string)
  (c : change) : Prop :=
  key c = cell o (fst p) u
  /\ column c = snd p
  /\ new_value c = cell e (fst p) (snd p).

(** Column [c] stands before column [c'] in [cols]. *)
Definition col_before (cols : list string) (c c' : string) : Prop :=
  exists j j', position c cols = Some j /\ position c' cols = Some j' /\ j < j'.

(** Cell [p] comes before cell [q]: an earlier row, or the same row and an
    earlier column of [cols]. *)
Definition cell_before (cols : list string) (p q : nat * string) : Prop :=
  fst p < fst q
  \/ (fst p = fst q /\ col_before cols (snd p) (snd q)).

(** ** Worlds after a batch *)

(** The world after a session [c] ran statements that took its view to
    [v], the events [evs] being logged. *)
Definition after_statements (c : nat) (v : database) (evs : list event)
  (w : world) : world :=
  mkWorld (reachable w) (autocommit w)
    (if autocommit w then v else store w)
    (set_view c v (sessions w)) (next_conn w) (trace w ++ evs).

(** The world after a batch on a fresh connection: the connection is
    number [next_conn w], it is closed again, and the store is [db]. *)
Definition after_batch (w : world) (db : database) (evs : list event) : world :=
  mkWorld (reachable w) (autocommit w) db
    (drop_session (next_conn w) (sessions w)) (S (next_conn w))
    (trace w ++ Connect (next_conn w) :: OpenCursor (next_conn w) :: evs).

(** ** Scenarios *)

Definition A1_foo : DataFrame := mkFrame ["CODE"; "NAME"] [[VStr "A1"; VStr "foo"]].
Definition A1_bar : DataFrame := mkFrame ["CODE"; "NAME"] [[VStr "A1"; VStr "bar"]].

(** A snapshot with a [None], a NaN and an absent cell. *)
Definition with_nulls : DataFrame :=
  mkFrame ["CODE"; "NAME"; "QTY"]
    [[VStr "A1"; VNone; VNum 4]; [VStr "A2"; VStr "x"; VNaN]; [VStr "A3"]].

(** An original with a [None] and an absent cell, and an edit that holds
    NaN at both places. *)
Definition nulls_before : DataFrame :=
  mkFrame ["CODE"; "NAME"; "QTY"]
    [[VStr "A1"; VNone; VNum 4]; [VStr "A2"; VStr "x"]].

Definition nulls_after : DataFrame :=
  mkFrame ["CODE"; "NAME"; "QTY"]
    [[VStr "A1"; VNaN; VNum 5]; [VStr "A2"; VStr "x"; VNaN]].

(** A row whose unique column itself was edited, together with another
    cell. *)
Definition key_before : DataFrame :=
  mkFrame ["CODE"; "NAME"; "QTY"] [[VStr "A1"; VStr "foo"; VNum 1]].

Definition key_after : DataFrame :=
  mkFrame ["CODE"; "NAME"; "QTY"] [[VStr "B9"; VStr "bar"; VNum 1]].

(** Two rows with two edited cells each. *)
Definition order_before : DataFrame :=
  mkFrame ["CODE"; "NAME"; "QTY"]
    [[VStr "A1"; VStr "foo"; VNum 1]; [VStr "A2"; VStr "baz"; VNum 2]].

Definition order_after : DataFrame :=
  mkFrame ["CODE"; "NAME"; "QTY"]
    [[VStr "A1"; VStr "bar"; VNum 7]; [VStr "A2"; VStr "qux"; VNum 8]].


(** A snapshot with a column QTY, and a table that has lost that column
    since the snapshot was read: the update of NAME succeeds, the update of
    QTY fails. *)
Definition shown_before : DataFrame :=
  mkFrame ["CODE"; "NAME"; "QTY"] [[VStr "A1"; VStr "foo"; VNum 1]].

Definition shown_after : DataFrame :=
  mkFrame ["CODE"; "NAME"; "QTY"] [[VStr "A1"; VStr "bar"; VNum 2]].

Definition narrow_db : database :=
  [("SampleTest", mkFrame ["CODE"; "NAME"] [[VStr "A1"; VStr "foo"]])].

Definition name_change : change := mkChange (VStr "A1") "NAME" (VStr "bar").
Definition qty_change : change := mkChange (VStr "A1") "QTY" (VNum 2).

(** Four filtered rows, of which the first page shows three. *)
Definition four_rows : DataFrame :=
  mkFrame ["CODE"; "NAME"]
    [[VStr "A1"; VStr "a"]; [VStr "A2"; VStr "b"];
     [VStr "A3"; VStr "c"]; [VStr "A4"; VStr "d"]].

Definition first_page_edited : DataFrame :=
  mkFrame ["CODE"; "NAME"]
    [[VStr "A1"; VStr "a"]; [VStr "A2"; VStr "z"]; [VStr "A3"; VStr "c"]].

(** The edited row with a column the original does not have, and one row
    more. *)
Definition A1_bar_wide : DataFrame :=
  mkFrame ["NOTE"; "CODE"; "NAME"]
    [[VStr "n"; VStr "A1"; VStr "bar"]; [VStr "m"; VStr "A2"; VStr "new"]].








(** ** Pagination (lines 152-154 and 193-203) *)

(** Line 154: [math.ceil(total_rows / rows_per_page)].  The quotient is a
    float in the source; its ceiling is the integer ceiling for every row
    count below 2^53. *)
Definition total_pages (total_rows : nat) : nat :=
  (total_rows + rows_per_page - 1) / rows_per_page.

(** Lines 196-198: the Previous button.  The page number is a Python
    integer kept in the session state. *)
Definition on_previous (clicked : bool) (page_structure : Z) : Z :=
  if clicked && (0 <? page_structure)%Z
  then (page_structure - 1)%Z
  else page_structure.

(** Lines 202-204: the Next button. *)
Definition on_next (clicked : bool) (page_structure : Z) (pages : nat) : Z :=
  if clicked && (page_structure <? Z.of_nat pages - 1)%Z
  then (page_structure + 1)%Z
  else page_structure.

(** ** What an operation sent *)

(** The events an operation added to the trace. *)
Definition events_since (w w' : world) : list event :=
  skipn (List.length (trace w)) (trace w').

(** The statements among some events, in order. *)
Fixpoint executed (evs : list event) : list statement :=
  match evs with
  | [] => []
  | Execute _ q :: evs' => q :: executed evs'
  | _ :: evs' => executed evs'
  end.

Fixpoint committed (evs : list event) : bool :=
  match evs with
  | [] => false
  | Commit _ :: _ => true
  | _ :: evs' => committed evs'
  end.

(** Every open session was numbered before the next connection's number:
    what holds of the initial world and is kept by every operation. *)
Definition fresh (w : world) : Prop :=
  forall c v, In (c, v) (sessions w) -> c < next_conn w.

(** The edited frame cut to the original's length. *)
Definition truncate (n : nat) (df : DataFrame) : DataFrame :=
  mkFrame (columns df) (firstn n (rows df)).

(** ** Tables of the reference server *)

(** The change that reports cell [p]. *)
Definition change_at (o e : DataFrame) (u : string) (p : nat * string)
  : change :=
  mkChange (cell o (fst p) u) (snd p) (cell e (fst p) (snd p)).

(** What an update statement does to the rows of a table whose set column
    is at position [j] and whose where column is at position [k]. *)
Definition updated_rows (j k : nat) (new_val key_val : value)
  (rs : list (list value)) : list (list value) :=
  map (fun r => if sql_eq (nth k r VNaN) key_val then set_cell j new_val r
                else r) rs.

(** Table [T] has the columns and the length of snapshot [o], and stores
    in the unique column the keys read from [o]. *)
Definition keyed_like (o : DataFrame) (u : string) (T : DataFrame) : Prop :=
  columns T = columns o
  /\ len T = len o
  /\ forall i, i < len o -> stored T i u = cell o i u.

(** ** Rows and labels *)

Lemma existsb_dtype (g : dtype -> bool) l :
  forall l', map dtype_of l = map dtype_of l' ->
             existsb (fun v => g (dtype_of v)) l
             = existsb (fun v => g (dtype_of v)) l'.
Proof.
  induction l as [|v l IH]; intros [|v' l']; simpl; try discriminate; trivial.
  intros [= Hv Hl]. rewrite Hv. f_equal. now apply IH.
Qed.

(** The dtype of a row depends on the dtypes of the columns only. *)
Lemma common_dtype_by_column l l' :
  map dtype_of l = map dtype_of l' -> common_dtype l = common_dtype l'.
Proof.
  intros H. unfold common_dtype.
  rewrite (existsb_dtype
             (fun d => match d with Object => true | _ => false end) l l' H).
  rewrite (existsb_dtype
             (fun d => match d with Float64 => true | _ => false end) l l' H).
  reflexivity.
Qed.

(** In a frame whose columns hold one dtype each, all rows are read in the
    same dtype. *)
Lemma rows_share_dtype df r r' :
  one_dtype_per_column df -> In r (rows df) -> In r' (rows df) ->
  common_dtype (pad (List.length (columns df)) r)
  = common_dtype (pad (List.length (columns df)) r').
Proof.
  intros H Hr Hr'. apply common_dtype_by_column. now apply H.
Qed.

Lemma select_absent c cols r :
  count_occ string_dec cols c = 0 -> select c cols r = [].
Proof.
  revert r; induction cols as [|c' cols IH]; intros r H; simpl in *; auto.
  destruct (string_dec c' c) as [->|Hne]; [discriminate|].
  rewrite (proj2 (String.eqb_neq _ _) Hne). now apply IH.
Qed.

Lemma select_single c cols r :
  single c cols -> select c cols r = [at_col cols r c].
Proof.
  unfold single, at_col. revert r.
  induction cols as [|c' cols IH]; intros r H; simpl in *; [discriminate|].
  destruct (string_dec c' c) as [->|Hne].
  - rewrite String.eqb_refl. injection H as H.
    rewrite select_absent by assumption. now destruct r.
  - rewrite (proj2 (String.eqb_neq _ _) Hne), IH by assumption.
    destruct (position c cols) as [j|]; simpl; [|reflexivity].
    destruct r; simpl; [now destruct j | reflexivity].
Qed.

Lemma getitem_single c cols r :
  single c cols -> getitem (mkSeries cols r) c = Ok (Scalar (at_col cols r c)).
Proof.
  intros H. unfold getitem; simpl. now rewrite select_single.
Qed.

Lemma single_of_NoDup c cols : NoDup cols -> In c cols -> single c cols.
Proof.
  intros Hnd Hin. unfold single.
  now apply (proj1 (NoDup_count_occ' string_dec cols) Hnd).
Qed.

Lemma loc_in_range df i :
  i < len df ->
  loc df i
  = Ok (mkSeries (columns df)
          (read_row i (columns df) (nth i (rows df) []))).
Proof.
  intros H. unfold loc. now rewrite (nth_error_nth' _ [] H).
Qed.

Lemma loc_out_of_range df i :
  len df <= i -> loc df i = Raise (KeyError (LRow i)).
Proof.
  intros H. unfold loc.
  now rewrite (proj2 (nth_error_None (rows df) i) H).
Qed.

Lemma dict_set_fresh d k v :
  ~ In k (map fst d) -> dict_set d k v = d ++ [(k, v)].
Proof.
  induction d as [|[k' v'] d IH]; simpl; intros H; [reflexivity|].
  destruct (String.eqb_spec k' k) as [->|Hne]; [tauto|].
  rewrite IH; tauto.
Qed.

(** ** The column loop computes the changed columns *)

Lemma scan_columns_spec ocols orow ecols erow cs :
  forall d,
    NoDup cs ->
    (forall c, In c cs ->
               single c ocols /\ single c ecols /\ ~ In c (map fst d)) ->
    scan_columns (mkSeries ocols orow) (mkSeries ecols erow) cs d
    = Ok (d ++ map (fun c => (c, at_col ecols erow c))
                (filter (fun c => differs (at_col ocols orow c)
                                          (at_col ecols erow c)) cs)).
Proof.
  induction cs as [|c cs IH]; intros d Hnd Hcs; simpl.
  - now rewrite app_nil_r.
  - inversion Hnd as [|? ? Hc Hnd']; subst.
    destruct (Hcs c (or_introl eq_refl)) as (Ho & He & Hd).
    assert (Hrest : forall d' : dict, (forall c', In c' (map fst d') ->
                                           In c' (map fst d) \/ c' = c) ->
              forall c', In c' cs ->
                single c' ocols /\ single c' ecols /\ ~ In c' (map fst d')).
    { intros d' Hd' c' Hc'.
      destruct (Hcs c' (or_intror Hc')) as (? & ? & ?).
      repeat split; trivial. intros Hin.
      destruct (Hd' _ Hin) as [?| ->]; tauto. }
    rewrite !getitem_single by assumption. simpl.
    unfold differs.
    destruct (isna (at_col ocols orow c)) eqn:Ena; simpl.
    + destruct (isna (at_col ecols erow c)) eqn:Enb; simpl.
      * apply IH; [assumption|]. apply Hrest. tauto.
      * destruct (py_ne _ _); simpl.
        -- rewrite dict_set_fresh by assumption.
           rewrite IH; [now rewrite <- app_assoc | assumption |].
           apply Hrest. intros c'. rewrite map_app, in_app_iff. simpl.
           intuition congruence.
        -- apply IH; [assumption|]. apply Hrest. tauto.
    + destruct (py_ne _ _); simpl.
      * rewrite dict_set_fresh by assumption.
        rewrite IH; [now rewrite <- app_assoc | assumption |].
        apply Hrest. intros c'. rewrite map_app, in_app_iff. simpl.
        intuition congruence.
      * apply IH; [assumption|]. apply Hrest. tauto.
Qed.

(** ** The row loop computes the spec's changes *)

Lemma row_step_spec o e u st i :
  columns_match o e ->
  changed_columns o e i = [] \/ single u (columns o) ->
  i < len o -> i < len e ->
  row_step o e u st i = Ok (step_spec o e u st i).
Proof.
  intros [Hnd Hcols] Hu Ho He.
  unfold row_step, step_spec, row_changes_spec, changed_columns, cell in *.
  rewrite (loc_in_range o i Ho), (loc_in_range e i He). simpl.
  rewrite scan_columns_spec; [simpl|assumption|].
  - destruct (filter _ (columns o)) as [|c cs]; simpl; [reflexivity|].
    destruct Hu as [Hu|Hu]; [discriminate|].
    rewrite getitem_single by assumption. simpl. unfold emit_changes.
    simpl. now rewrite map_map.
  - intros c Hc. repeat split; auto using single_of_NoDup.
Qed.

Lemma for_range_app body l1 l2 st :
  for_range body (l1 ++ l2) st
  = (st' <- for_range body l1 st ;; for_range body l2 st').
Proof.
  revert st; induction l1 as [|i l1 IH]; intros st; simpl; [reflexivity|].
  destruct (body st i); simpl; auto.
Qed.

Lemma for_range_fold body f idxs :
  forall st,
    (forall i st', In i idxs -> body st' i = Ok (f st' i)) ->
    for_range body idxs st = Ok (fold_left f idxs st).
Proof.
  induction idxs as [|i idxs IH]; intros st H; simpl; [reflexivity|].
  rewrite H by now left. simpl. apply IH. intros; apply H; now right.
Qed.

(** An invariant of the accumulators that every step keeps holds when the
    loop ends. *)
Lemma for_range_invariant (P : acc -> Prop) body idxs :
  (forall st i st', P st -> body st i = Ok st' -> P st') ->
  forall st st', P st -> for_range body idxs st = Ok st' -> P st'.
Proof.
  intros Hstep. induction idxs as [|i idxs IH]; intros st st' HP; simpl.
  - intros [= <-]. exact HP.
  - destruct (body st i) as [st1|] eqn:E; simpl; [|discriminate].
    apply IH. eapply Hstep; eauto.
Qed.

Lemma step_spec_changes o e u idxs :
  forall st,
    snd (fold_left (step_spec o e u) idxs st)
    = snd st ++ flat_map (row_changes_spec o e u) idxs.
Proof.
  induction idxs as [|i idxs IH]; intros st; simpl.
  - now rewrite app_nil_r.
  - rewrite IH. unfold step_spec.
    destruct (row_changes_spec o e u i) as [|c g]; simpl.
    + reflexivity.
    + now rewrite <- app_assoc.
Qed.

(** On comparable frames, with the edited frame at least as long as the
    original and the unique column present whenever some cell changed, the
    reconciler returns, and its changes are the spec's. *)
Lemma reconcile_refines o e u :
  columns_match o e ->
  (forall i, i < len o -> changed_columns o e i = []) \/ single u (columns o) ->
  len o <= len e ->
  reconcile o e u = Ok (fold_left (step_spec o e u) (seq 0 (len o)) ([], []))
  /\ snd (fold_left (step_spec o e u) (seq 0 (len o)) ([], []))
     = reconcile_spec o e u.
Proof.
  intros Hm Hu Hlen. split.
  - unfold reconcile, reset_index. apply for_range_fold.
    intros i st Hi. apply in_seq in Hi. apply row_step_spec; try assumption.
    + destruct Hu as [Hu|Hu]; [left; apply Hu|right; assumption]. lia.
    + lia.
    + lia.
  - now rewrite step_spec_changes.
Qed.

(** ** Comparing values *)

Lemma float_eqb_refl m e : float_eqb m e m e = true.
Proof.
  unfold float_eqb. apply Z.eqb_refl.
Qed.

Lemma py_eq_refl a : isna a = false -> py_eq a a = true.
Proof.
  destruct a; simpl; intros H; try discriminate.
  - apply String.eqb_refl.
  - apply Z.eqb_refl.
  - apply float_eqb_refl.
Qed.

Lemma differs_same a : differs a a = false.
Proof.
  unfold differs, py_ne. destruct (isna a) eqn:E; simpl; [reflexivity|].
  now rewrite py_eq_refl.
Qed.

(** ** Rows without changes leave the accumulators alone *)

Lemma step_spec_idle o e u idxs :
  forall st,
    (forall i, In i idxs -> changed_columns o e i = []) ->
    fold_left (step_spec o e u) idxs st = st.
Proof.
  induction idxs as [|i idxs IH]; intros st H; simpl; [reflexivity|].
  unfold step_spec at 2, row_changes_spec. rewrite (H i) by now left.
  simpl. apply IH. intros; apply H; now right.
Qed.

Lemma filter_none {A} (f : A -> bool) l :
  (forall x, In x l -> f x = false) -> filter f l = [].
Proof.
  induction l as [|x l IH]; simpl; intros H; [reflexivity|].
  rewrite (H x) by now left. apply IH. intros; apply H; now right.
Qed.


(** ** Claims about the reconciler *)

(** C2.  Reconciling a snapshot against itself gives no cell change (and no
    updated key), whatever the unique column and whatever cells are null:
    for a snapshot whose column names are distinct, the reconciler returns
    the empty sequence. *)
Theorem reconcile_self_is_empty (S : DataFrame) (key_col : string) :
  NoDup (columns S) ->
  reconcile S S key_col = Ok ([], []).
Proof.
  intros Hnd.
  assert (Hidle : forall i, changed_columns S S i = []).
  { intros i. apply filter_none. intros c _. apply differs_same. }
  destruct (reconcile_refines S S key_col) as [Hr _].
  - split; [assumption|]. intros c Hc. now apply single_of_NoDup.
  - left. intros i _. apply Hidle.
  - lia.
  - rewrite Hr. f_equal. apply step_spec_idle. intros i _. apply Hidle.
Qed.

Lemma reconcile_self_is_empty_witness :
  NoDup (columns with_nulls)
  /\ reconcile with_nulls with_nulls "CODE" = Ok ([], []).
Proof.
  assert (H : NoDup (columns with_nulls)).
  { simpl. repeat constructor; simpl; intuition discriminate. }
  split; [exact H | exact (reconcile_self_is_empty with_nulls "CODE" H)].
Defined.




(** ** The cells the reconciler reports *)

Lemma reported_cells_iff o e i c :
  In (i, c) (reported_cells o e)
  <-> i < len o /\ In c (columns o)
      /\ differs (cell o i c) (cell e i c) = true.
Proof.
  unfold reported_cells, changed_columns.
  rewrite in_flat_map. split.
  - intros (k & Hk & Hin). apply in_seq in Hk. apply in_map_iff in Hin.
    destruct Hin as (c' & [= <- <-] & Hc). apply filter_In in Hc.
    intuition lia.
  - intros (Hi & Hc & Hd). exists i. split; [apply in_seq; lia|].
    apply in_map. apply filter_In. tauto.
Qed.

Lemma Forall2_reports_flat_map o e u idxs :
  Forall2 (reports o e u)
    (flat_map (fun i => map (pair i) (changed_columns o e i)) idxs)
    (flat_map (row_changes_spec o e u) idxs).
Proof.
  induction idxs as [|i idxs IH]; simpl; [constructor|].
  apply Forall2_app; [|exact IH].
  unfold row_changes_spec.
  induction (changed_columns o e i) as [|c cs IHc]; simpl; constructor; trivial.
  repeat split.
Qed.

(** On comparable frames of equal length with the unique column present,
    the reconciler returns, and its changes report the cells that differ,
    one change per cell and in the same order. *)
Lemma reconcile_reports o e u :
  columns_match o e -> len o = len e -> In u (columns o) ->
  exists ks cs,
    reconcile o e u = Ok (ks, cs)
    /\ Forall2 (reports o e u) (reported_cells o e) cs.
Proof.
  intros Hm Hlen Hu.
  destruct (reconcile_refines o e u Hm) as [Hr Hs].
  - right. apply single_of_NoDup; [apply Hm | assumption].
  - lia.
  - destruct (fold_left _ _ _) as [ks cs]. exists ks, cs.
    split; [assumption|]. simpl in Hs. subst cs.
    apply Forall2_reports_flat_map.
Qed.

Lemma Forall2_In_r {A B} (R : A -> B -> Prop) l1 l2 y :
  Forall2 R l1 l2 -> In y l2 -> exists x, In x l1 /\ R x y.
Proof.
  induction 1 as [|x y' l1 l2 HR HF IH]; simpl; [contradiction|].
  intros [<-|Hin].
  - exists x; tauto.
  - destruct (IH Hin) as (x' & ? & ?). exists x'; tauto.
Qed.


(** C3.  A cell that is null in both snapshots at the same row and column
    is never reported, whichever null marker each side holds ([None], NaN
    or an absent cell): the reconciler returns, the cell is not among the
    cells its changes report, and when the row's key is its own no change
    addresses that key and column. *)
Theorem null_in_both_never_reported (o e : DataFrame) (u : string)
  (i : nat) (col : string) :
  columns_match o e ->
  len o = len e ->
  In u (columns o) ->
  isna (cell o i col) = true ->
  isna (cell e i col) = true ->
  exists ks cs,
    reconcile o e u = Ok (ks, cs)
    /\ Forall2 (reports o e u) (reported_cells o e) cs
    /\ ~ In (i, col) (reported_cells o e)
    /\ ((forall k, k < len o -> cell o k u = cell o i u -> k = i) ->
        forall c, In c cs -> ~ (key c = cell o i u /\ column c = col)).
Proof.
  intros Hm Hlen Hu Ho He.
  destruct (reconcile_reports o e u Hm Hlen Hu) as (ks & cs & Hr & Hrep).
  assert (Hnot : ~ In (i, col) (reported_cells o e)).
  { rewrite reported_cells_iff. intros (_ & _ & Hd).
    unfold differs in Hd. now rewrite Ho, He in Hd. }
  exists ks, cs. repeat split; trivial.
  intros Huniq c Hc [Hk Hcol].
  destruct (Forall2_In_r _ _ _ _ Hrep Hc) as ([k c'] & Hin & Hk' & Hc' & _).
  simpl in *. apply Hnot.
  assert (Hin' := Hin). apply reported_cells_iff in Hin'.
  rewrite (Huniq k) in Hin by (try tauto; congruence).
  congruence.
Qed.

Lemma three_columns_match rs rs' :
  columns_match (mkFrame ["CODE"; "NAME"; "QTY"] rs)
                (mkFrame ["CODE"; "NAME"; "QTY"] rs').
Proof.
  split.
  - simpl. repeat constructor; simpl; intuition discriminate.
  - intros c [<-|[<-|[<-|[]]]]; reflexivity.
Qed.

Lemma null_in_both_never_reported_witness :
  exists ks cs,
    reconcile nulls_before nulls_after "CODE" = Ok (ks, cs)
    /\ Forall2 (reports nulls_before nulls_after "CODE")
         (reported_cells nulls_before nulls_after) cs
    /\ ~ In (0, "NAME") (reported_cells nulls_before nulls_after)
    /\ ((forall k, k < len nulls_before ->
                   cell nulls_before k "CODE" = cell nulls_before 0 "CODE" ->
                   k = 0) ->
        forall c, In c cs ->
                  ~ (key c = cell nulls_before 0 "CODE" /\ column c = "NAME")).
Proof.
  apply (null_in_both_never_reported nulls_before nulls_after "CODE" 0 "NAME").
  - apply three_columns_match.
  - reflexivity.
  - simpl; tauto.
  - reflexivity.
  - reflexivity.
Defined.




(** ** The order of the reported cells *)

Lemma position_in c cols : In c cols -> exists j, position c cols = Some j.
Proof.
  induction cols as [|c' cols IH]; simpl; [contradiction|].
  intros H. destruct (String.eqb_spec c' c) as [->|Hne]; [now exists 0|].
  destruct H as [?|H]; [contradiction|].
  destruct (IH H) as [j ->]. now exists (S j).
Qed.

Lemma StronglySorted_app {A} (R : A -> A -> Prop) l1 l2 :
  StronglySorted R l1 -> StronglySorted R l2 ->
  (forall x y, In x l1 -> In y l2 -> R x y) ->
  StronglySorted R (l1 ++ l2).
Proof.
  induction l1 as [|a l1 IH]; simpl; intros H1 H2 H12; [assumption|].
  apply StronglySorted_inv in H1. destruct H1 as [H1 Ha].
  constructor.
  - apply IH; auto.
  - apply Forall_app. split; [assumption|].
    apply Forall_forall. intros y Hy. apply H12; auto.
Qed.

Lemma StronglySorted_within {A} (R R' : A -> A -> Prop) l :
  (forall x y, In x l -> In y l -> R x y -> R' x y) ->
  StronglySorted R l -> StronglySorted R' l.
Proof.
  induction l as [|a l IH]; intros Himp H; [constructor|].
  apply StronglySorted_inv in H. destruct H as [H Ha].
  constructor.
  - apply IH; [|assumption]. intros x y Hx Hy. apply Himp; now right.
  - rewrite Forall_forall in *. intros y Hy.
    apply Himp; [now left | now right | auto].
Qed.

Lemma StronglySorted_filter {A} (R : A -> A -> Prop) f l :
  StronglySorted R l -> StronglySorted R (filter f l).
Proof.
  induction 1 as [|a l H IH Ha]; simpl; [constructor|].
  destruct (f a); [|assumption]. constructor; [assumption|].
  rewrite Forall_forall in *. intros y Hy. apply filter_In in Hy. now apply Ha.
Qed.

Lemma StronglySorted_map {A B} (R : B -> B -> Prop) (g : A -> B) l :
  StronglySorted (fun x y => R (g x) (g y)) l -> StronglySorted R (map g l).
Proof.
  induction 1 as [|a l H IH Ha]; simpl; constructor; [assumption|].
  rewrite Forall_forall in *. intros y Hy. apply in_map_iff in Hy.
  destruct Hy as (x & <- & Hx). now apply Ha.
Qed.

Lemma columns_in_order cols :
  NoDup cols -> StronglySorted (col_before cols) cols.
Proof.
  induction cols as [|a cols IH]; intros Hnd; [constructor|].
  inversion Hnd as [|? ? Ha Hnd']; subst.
  assert (Hpos : forall c j, In c cols -> position c cols = Some j ->
                             position c (a :: cols) = Some (S j)).
  { intros c j Hc Hj. simpl.
    destruct (String.eqb_spec a c) as [->|_]; [contradiction|].
    now rewrite Hj. }
  constructor.
  - apply (StronglySorted_within (col_before cols)); [|now apply IH].
    intros x y Hx Hy (j & j' & Hj & Hj' & Hlt).
    exists (S j), (S j'). repeat split; auto. lia.
  - apply Forall_forall. intros c Hc.
    destruct (position_in c cols Hc) as [j Hj].
    exists 0, (S j). repeat split; [|auto|lia].
    simpl. now rewrite String.eqb_refl.
Qed.

Lemma reported_cells_in_order o e :
  NoDup (columns o) ->
  StronglySorted (cell_before (columns o)) (reported_cells o e).
Proof.
  intros Hnd. unfold reported_cells.
  generalize 0 as start.
  induction (len o) as [|n IH]; intros start; simpl; [constructor|].
  apply StronglySorted_app.
  - apply StronglySorted_map. unfold changed_columns.
    apply StronglySorted_filter.
    apply (StronglySorted_within (col_before (columns o)));
      [|now apply columns_in_order].
    intros x y _ _ H. right. split; [reflexivity|exact H].
  - apply IH.
  - intros [i c] [i' c'] Hx Hy. left. simpl.
    apply in_map_iff in Hx. destruct Hx as (? & [= <- <-] & _).
    apply in_flat_map in Hy. destruct Hy as (k & Hk & Hy).
    apply in_seq in Hk. apply in_map_iff in Hy.
    destruct Hy as (? & [= <- <-] & _). lia.
Qed.

(** C9.  The changes come out sorted by row position, ascending, and within
    one row in the order of the original's columns: the reconciler returns,
    its changes report, one for one, a sequence of cells in which every
    cell comes before all the later ones. *)
Theorem changes_in_row_then_column_order (o e : DataFrame) (u : string) :
  columns_match o e ->
  len o = len e ->
  In u (columns o) ->
  exists ks cs,
    reconcile o e u = Ok (ks, cs)
    /\ Forall2 (reports o e u) (reported_cells o e) cs
    /\ StronglySorted (cell_before (columns o)) (reported_cells o e).
Proof.
  intros Hm Hlen Hu.
  destruct (reconcile_reports o e u Hm Hlen Hu) as (ks & cs & Hr & Hrep).
  exists ks, cs. repeat split; trivial.
  apply reported_cells_in_order. apply Hm.
Qed.

Lemma changes_in_row_then_column_order_witness :
  reconcile order_before order_after "CODE"
  = Ok ([VStr "A1"; VStr "A2"],
        [mkChange (VStr "A1") "NAME" (VStr "bar");
         mkChange (VStr "A1") "QTY" (VNum 7);
         mkChange (VStr "A2") "NAME" (VStr "qux");
         mkChange (VStr "A2") "QTY" (VNum 8)])
  /\ exists ks cs,
       reconcile order_before order_after "CODE" = Ok (ks, cs)
       /\ Forall2 (reports order_before order_after "CODE")
            (reported_cells order_before order_after) cs
       /\ StronglySorted (cell_before (columns order_before))
            (reported_cells order_before order_after).
Proof.
  split; [reflexivity|].
  apply (changes_in_row_then_column_order order_before order_after "CODE").
  - apply three_columns_match.
  - reflexivity.
  - simpl; tauto.
Defined.

(** ** Sessions *)

Lemma set_view_same c v ss : view_of c ss = Some v -> set_view c v ss = ss.
Proof.
  induction ss as [|[c' v'] ss IH]; simpl; [reflexivity|].
  destruct (Nat.eqb c' c).
  - now intros [= ->].
  - intros H. now rewrite IH.
Qed.

Lemma set_view_twice c v v' ss :
  set_view c v' (set_view c v ss) = set_view c v' ss.
Proof.
  induction ss as [|[c' v''] ss IH]; simpl; [reflexivity|].
  destruct (Nat.eqb c' c) eqn:E; simpl; rewrite E; [reflexivity|].
  now rewrite IH.
Qed.

Lemma view_of_set_view c v v' ss :
  view_of c ss = Some v -> view_of c (set_view c v' ss) = Some v'.
Proof.
  induction ss as [|[c' v''] ss IH]; simpl; [discriminate|].
  destruct (Nat.eqb c' c) eqn:E; simpl; rewrite E; auto.
Qed.

Section Batches.

Variable run_sql : statement -> database -> result (database * DataFrame).

Lemma execute_all_ok cur t u cs :
  forall w v v',
    view_of cur (sessions w) = Some v ->
    (autocommit w = true -> store w = v) ->
    run_batch run_sql (map (update_statement t u) cs) v = Ok v' ->
    execute_all run_sql cur t u cs w
    = (Ok tt,
       after_statements cur v'
         (map (fun c => Execute cur (update_statement t u c)) cs) w).
Proof.
  unfold execute_all.
  induction cs as [|c cs IH]; intros w v v' Hview Hstore Hrun; simpl in *.
  - injection Hrun as <-. unfold ret, after_statements. f_equal.
    destruct w as [r a s ss n tr]; simpl in *.
    rewrite set_view_same, app_nil_r by assumption.
    destruct a; [now rewrite Hstore|reflexivity].
  - destruct (run_sql (update_statement t u c) v) as [[v1 out]|err] eqn:E;
      simpl in Hrun; [|discriminate].
    unfold mbind at 1. unfold mbind at 1. unfold execute at 1. simpl.
    rewrite Hview, E. unfold ret at 1.
    match goal with |- for_each cs ?f ?w1 = _ =>
      rewrite (IH w1 v1 v')
    end.
    + f_equal. unfold after_statements.
      destruct w as [r a s ss n tr]; destruct a; simpl;
        now rewrite set_view_twice, <- app_assoc.
    + destruct w as [r a s ss n tr]; destruct a; simpl in *;
        eapply view_of_set_view; eassumption.
    + destruct w as [r a s ss n tr]; destruct a; simpl in *; trivial.
      discriminate.
    + assumption.
Qed.

Lemma for_each_app {A} (xs ys : list A) body :
  forall w,
    for_each (xs ++ ys) body w
    = (_ <~ for_each xs body ;; for_each ys body) w.
Proof.
  induction xs as [|x xs IH]; intros w; simpl.
  - reflexivity.
  - unfold mbind in *. destruct (body x w) as [[[]|] w1]; [|reflexivity].
    now rewrite IH.
Qed.

End Batches.

Lemma execute_all_fails run_sql cur t u pre c post :
  forall w v v1 err,
    view_of cur (sessions w) = Some v ->
    (autocommit w = true -> store w = v) ->
    run_batch run_sql (map (update_statement t u) pre) v = Ok v1 ->
    run_sql (update_statement t u c) v1 = Raise err ->
    execute_all run_sql cur t u (pre ++ c :: post) w
    = (Raise err,
       after_statements cur v1
         (map (fun c => Execute cur (update_statement t u c)) (pre ++ [c])) w).
Proof.
  intros w v v1 err Hview Hstore Hpre Hc.
  unfold execute_all. rewrite for_each_app. unfold mbind at 1.
  fold (execute_all run_sql cur t u pre).
  rewrite (execute_all_ok run_sql cur t u pre w v v1) by assumption.
  simpl. unfold mbind at 1. unfold mbind at 1. unfold execute. simpl.
  rewrite (view_of_set_view _ _ _ _ Hview), Hc. f_equal.
  unfold after_statements, log; simpl.
  now rewrite map_app, <- app_assoc.
Qed.

(** A batch fails at its first statement that fails. *)
Lemma run_batch_fails run_sql qs :
  forall v err,
    run_batch run_sql qs v = Raise err ->
    exists pre q post v1,
      qs = pre ++ q :: post
      /\ run_batch run_sql pre v = Ok v1
      /\ run_sql q v1 = Raise err.
Proof.
  induction qs as [|q qs IH]; intros v err H; simpl in H; [discriminate|].
  destruct (run_sql q v) as [[v1 out]|e] eqn:E; simpl in H.
  - destruct (IH _ _ H) as (pre & q' & post & v2 & -> & Hpre & Hq).
    exists (q :: pre), q', post, v2. simpl. rewrite E. simpl. tauto.
  - injection H as <-. exists [], q, qs, v. simpl. tauto.
Qed.

Lemma drop_fresh_session c v ss :
  drop_session c ((c, v) :: ss) = drop_session c ss.
Proof.
  unfold drop_session; simpl. now rewrite Nat.eqb_refl.
Qed.

(** Two worlds written out field by field are equal. *)
Ltac settle_world :=
  rewrite ?Nat.eqb_refl, ?drop_fresh_session;
  unfold set_sessions, set_store, log, after_statements; simpl;
  rewrite ?Nat.eqb_refl, ?drop_fresh_session; simpl;
  repeat (rewrite <- app_assoc; simpl);
  reflexivity.

(** The whole of lines 80-97 when every statement succeeds. *)
Lemma apply_changes_ok run_sql t u ks c cs w v' :
  reachable w = true ->
  run_batch run_sql (map (update_statement t u) (c :: cs)) (store w) = Ok v' ->
  apply_changes run_sql t u ks (c :: cs) w
  = (Ok tt,
     after_batch w v'
       (map (fun c => Execute (next_conn w) (update_statement t u c)) (c :: cs)
        ++ [Commit (next_conn w); Ui (RowsUpdated (List.length ks));
            CloseCursor (next_conn w); Close (next_conn w)])).
Proof.
  intros Hr Hrun.
  unfold apply_changes, mbind at 1, get_connection. rewrite Hr.
  unfold mbind at 1, cursor, finally, try_except. unfold mbind at 1.
  erewrite execute_all_ok; [| |reflexivity|exact Hrun].
  2:{ simpl. now rewrite Nat.eqb_refl. }
  unfold mbind at 1, commit. simpl.
  rewrite Nat.eqb_refl. simpl.
  unfold after_batch. destruct w as [r a s ss n tr]; simpl in *.
  subst r. destruct a; settle_world.
Qed.

(** The whole of lines 80-97 when a statement fails. *)
Lemma apply_changes_fails run_sql t u ks pre c post w v err :
  reachable w = true ->
  run_batch run_sql (map (update_statement t u) pre) (store w) = Ok v ->
  run_sql (update_statement t u c) v = Raise err ->
  apply_changes run_sql t u ks (pre ++ c :: post) w
  = (Ok tt,
     after_batch w (if autocommit w then v else store w)
       (map (fun c => Execute (next_conn w) (update_statement t u c))
          (pre ++ [c])
        ++ [Ui (ErrorNotice err);
            CloseCursor (next_conn w); Close (next_conn w)])).
Proof.
  intros Hr Hpre Hc.
  remember (pre ++ c :: post) as l eqn:El.
  destruct l as [|x xs]; [destruct pre; discriminate|].
  unfold apply_changes. rewrite El.
  unfold mbind at 1, get_connection. rewrite Hr.
  unfold mbind at 1, cursor, finally, try_except. unfold mbind at 1.
  erewrite execute_all_fails; [| |reflexivity|exact Hpre|exact Hc].
  2:{ simpl. now rewrite Nat.eqb_refl. }
  simpl.
  unfold after_batch. destruct w as [r a s ss n tr]; simpl in *.
  subst r. destruct a; settle_world.
Qed.

(** ** The updated keys and the changes *)

Lemma row_step_cases o e u st i st' :
  row_step o e u st i = Ok st' ->
  st' = st
  \/ exists k p d,
       st' = (set_add k (fst st), snd st ++ emit_changes k (p :: d)).
Proof.
  unfold row_step.
  destruct (loc o i) as [orow|]; simpl; [|discriminate].
  destruct (loc e i) as [erow|]; simpl; [|discriminate].
  destruct (scan_columns orow erow (columns o) []) as [[|p d]|]; simpl;
    [| |discriminate].
  - intros [= <-]. now left.
  - destruct (getitem orow u) as [[k|vs]|]; simpl; try discriminate.
    intros [= <-]. right. now exists k, p, d.
Qed.

Lemma no_changes_no_keys o e u ks :
  reconcile o e u = Ok (ks, []) -> ks = [].
Proof.
  intros H. unfold reconcile in H.
  apply (for_range_invariant (fun st => snd st = [] -> fst st = []))
    in H; simpl in *; auto.
  intros st i st' HP Hstep.
  destruct (row_step_cases _ _ _ _ _ _ Hstep) as [->|(k & p & d & ->)];
    [assumption|].
  simpl. intros Hnil. apply app_eq_nil in Hnil. destruct Hnil; discriminate.
Qed.






(** ** Claims about the update applier *)

(** C6.  Applying no change is a no-op: nothing is sent to the database, no
    connection is opened, the one message shown is the no-changes notice,
    which is not an error, the operation returns without raising, and the
    number of updated rows is zero. *)
Theorem apply_nothing_is_noop run_sql (o e : DataFrame) (t u : string)
  (ks : list value) (w : world) :
  reconcile o e u = Ok (ks, []) ->
  apply_changes run_sql t u ks [] w = (Ok tt, log (Ui NoChangesToSave) w)
  /\ update_changed_cells run_sql o e t u w
     = (Ok tt, log (Ui NoChangesToSave) w)
  /\ is_error NoChangesToSave = false
  /\ List.length ks = 0
  /\ store (log (Ui NoChangesToSave) w) = store w
  /\ sessions (log (Ui NoChangesToSave) w) = sessions w
  /\ trace (log (Ui NoChangesToSave) w) = trace w ++ [Ui NoChangesToSave].
Proof.
  intros H. repeat split.
  - unfold update_changed_cells, mbind, lift. now rewrite H.
  - now rewrite (no_changes_no_keys _ _ _ _ H).
Qed.

Lemma apply_nothing_is_noop_witness :
  let w := initial_world true [("SampleTest", A1_foo)] in
  apply_changes sql_server "SampleTest" "CODE" [] [] w
  = (Ok tt, log (Ui NoChangesToSave) w)
  /\ update_changed_cells sql_server A1_foo A1_foo "SampleTest" "CODE" w
     = (Ok tt, log (Ui NoChangesToSave) w)
  /\ is_error NoChangesToSave = false
  /\ @List.length value [] = 0
  /\ store (log (Ui NoChangesToSave) w) = store w
  /\ sessions (log (Ui NoChangesToSave) w) = sessions w
  /\ trace (log (Ui NoChangesToSave) w) = trace w ++ [Ui NoChangesToSave].
Proof.
  exact (apply_nothing_is_noop sql_server A1_foo A1_foo "SampleTest" "CODE" []
           (initial_world true [("SampleTest", A1_foo)]) eq_refl).
Defined.




(** C1, as the code has it.  When a statement of the batch fails, the
    operation shows one error, sends no later statement, does not commit
    and closes its session; it returns without raising.  The code issues no
    rollback of its own: what the statements before the failure changed
    stays in the database when the session is in autocommit mode, and is
    discarded with the session when it is not. *)
Theorem failed_batch_outcome run_sql (t u : string) (ks : list value)
  (pre : list change) (c : change) (post : list change) (w : world)
  (db1 : database) (err : exn) :
  reachable w = true ->
  run_batch run_sql (map (update_statement t u) pre) (store w) = Ok db1 ->
  run_sql (update_statement t u c) db1 = Raise err ->
  exists w',
    apply_changes run_sql t u ks (pre ++ c :: post) w = (Ok tt, w')
    /\ trace w'
       = trace w
         ++ Connect (next_conn w) :: OpenCursor (next_conn w)
            :: map (fun c => Execute (next_conn w) (update_statement t u c))
                 (pre ++ [c])
            ++ [Ui (ErrorNotice err);
                CloseCursor (next_conn w); Close (next_conn w)]
    /\ sessions w' = drop_session (next_conn w) (sessions w)
    /\ store w' = (if autocommit w then db1 else store w)
    /\ (autocommit w = false -> store w' = store w).
Proof.
  intros Hr Hpre Hc. eexists. split.
  - apply (apply_changes_fails run_sql t u ks pre c post w db1 err Hr Hpre Hc).
  - simpl. repeat split. now intros ->.
Qed.

(** On a session that is not in autocommit mode the failed batch leaves the
    database as it was. *)
Lemma failed_batch_outcome_witness :
  exists w',
    apply_changes sql_server "SampleTest" "CODE" [VStr "A1"]
      ([name_change] ++ qty_change :: []) (initial_world false narrow_db)
    = (Ok tt, w')
    /\ trace w'
       = [] ++ Connect 0 :: OpenCursor 0
            :: map (fun c => Execute 0 (update_statement "SampleTest" "CODE" c))
                 ([name_change] ++ [qty_change])
            ++ [Ui (ErrorNotice (DatabaseError "invalid identifier"));
                CloseCursor 0; Close 0]
    /\ sessions w' = drop_session 0 []
    /\ store w'
       = (if false
          then [("SampleTest", mkFrame ["CODE"; "NAME"] [[VStr "A1"; VStr "bar"]])]
          else narrow_db)
    /\ (false = false -> store w' = narrow_db).
Proof.
  exact (failed_batch_outcome sql_server "SampleTest" "CODE" [VStr "A1"]
           [name_change] qty_change [] (initial_world false narrow_db)
           [("SampleTest", mkFrame ["CODE"; "NAME"] [[VStr "A1"; VStr "bar"]])]
           (DatabaseError "invalid identifier") eq_refl eq_refl eq_refl).
Defined.

(** C1 as stated fails on a session in autocommit mode: the second
    statement of the batch fails, one error is shown, and the first cell
    change is in the database all the same. *)
Lemma failed_batch_keeps_first_update :
  reconcile shown_before shown_after "CODE"
  = Ok ([VStr "A1"], [name_change; qty_change])
  /\ update_changed_cells sql_server shown_before shown_after
       "SampleTest" "CODE" (initial_world true narrow_db)
     = (Ok tt,
        mkWorld true true
          [("SampleTest", mkFrame ["CODE"; "NAME"] [[VStr "A1"; VStr "bar"]])]
          [] 1
          [Connect 0; OpenCursor 0;
           Execute 0 (Update "SampleTest" "NAME" "CODE" (VStr "bar") (VStr "A1"));
           Execute 0 (Update "SampleTest" "QTY" "CODE" (VNum 2) (VStr "A1"));
           Ui (ErrorNotice (DatabaseError "invalid identifier"));
           CloseCursor 0; Close 0])
  /\ store (snd (update_changed_cells sql_server shown_before shown_after
                   "SampleTest" "CODE" (initial_world true narrow_db)))
     <> store (initial_world true narrow_db).
Proof.
  split; [reflexivity|]. split; [reflexivity|].
  vm_compute. discriminate.
Qed.

(** ** Connections *)

(** The batch update releases the connection it opened, whether the batch
    succeeds or fails. *)
Lemma apply_changes_releases run_sql t u ks changes w :
  reachable w = true -> changes <> [] ->
  sessions (snd (apply_changes run_sql t u ks changes w))
  = drop_session (next_conn w) (sessions w).
Proof.
  intros Hr Hne.
  destruct (run_batch run_sql (map (update_statement t u) changes) (store w))
    as [db'|err] eqn:E.
  - destruct changes as [|c cs]; [contradiction|].
    now rewrite (apply_changes_ok run_sql t u ks c cs w db' Hr E).
  - destruct (run_batch_fails _ _ _ _ E)
      as (pre' & q & post' & v1 & Hq & Hpre & Hf).
    apply map_eq_app in Hq. destruct Hq as (pre & rest & -> & <- & Hrest).
    apply map_eq_cons in Hrest. destruct Hrest as (c & post & -> & <- & <-).
    now rewrite (apply_changes_fails run_sql t u ks pre c post w v1 err
                   Hr Hpre Hf).
Qed.

(** So does the schema mutator. *)
Lemma add_column_releases run_sql t col w :
  reachable w = true ->
  sessions (snd (add_column_to_snowflake run_sql t col w))
  = drop_session (next_conn w) (sessions w).
Proof.
  intros Hr. destruct w as [r a s ss n tr]; simpl in *. subst r.
  unfold add_column_to_snowflake, get_connection, cursor, finally, try_except.
  simpl. unfold mbind at 1. unfold execute. simpl. rewrite Nat.eqb_refl.
  destruct (run_sql (AlterAddColumn t col) s) as [[v' out]|err]; simpl.
  - unfold mbind at 1, commit.
    destruct a; simpl; rewrite ?Nat.eqb_refl; simpl; rewrite ?Nat.eqb_refl;
      reflexivity.
  - now rewrite Nat.eqb_refl.
Qed.

(** The table reader closes its connection when the query succeeds. *)
Lemma get_data_ok run_sql table w db' df :
  reachable w = true ->
  run_sql (SelectAll table) (store w) = Ok (db', df) ->
  fst (get_data run_sql table w) = Ok df
  /\ sessions (snd (get_data run_sql table w))
     = drop_session (next_conn w) (sessions w).
Proof.
  intros Hr Hq. destruct w as [r a s ss n tr]; simpl in *. subst r.
  unfold get_data, get_connection, read_sql, mbind, execute. simpl.
  rewrite Nat.eqb_refl, Hq.
  destruct a; simpl; rewrite ?Nat.eqb_refl; simpl; rewrite ?Nat.eqb_refl;
    split; reflexivity.
Qed.

(** C8, where the code departs from it.  When the query of the table reader
    fails, [get_data] raises with the connection it opened still open:
    line 52 is not reached and nothing closes the session. *)
Theorem get_data_leaves_connection_open run_sql (table : string) (w : world)
  (err : exn) :
  reachable w = true ->
  run_sql (SelectAll table) (store w) = Raise err ->
  get_data run_sql table w
  = (Raise err,
     mkWorld (reachable w) (autocommit w) (store w)
       ((next_conn w, store w) :: sessions w) (S (next_conn w))
       (trace w ++ [Connect (next_conn w);
                    Execute (next_conn w) (SelectAll table)])).
Proof.
  intros Hr Hq. destruct w as [r a s ss n tr]; simpl in *. subst r.
  unfold get_data, get_connection, read_sql, mbind, execute. simpl.
  rewrite Nat.eqb_refl, Hq. unfold log. simpl.
  now rewrite <- app_assoc.
Qed.

Lemma get_data_leaves_connection_open_witness :
  get_data sql_server "SampleTest" (initial_world true [])
  = (Raise (DatabaseError "table does not exist"),
     mkWorld true true [] [(0, [])] 1
       [Connect 0; Execute 0 (SelectAll "SampleTest")]).
Proof.
  exact (get_data_leaves_connection_open sql_server "SampleTest"
           (initial_world true []) (DatabaseError "table does not exist")
           eq_refl eq_refl).
Defined.

(** ** The save action *)

Lemma len_df1_page df page : len (df1_page df page) <= rows_per_page.
Proof.
  unfold df1_page, iloc, len. simpl.
  rewrite length_firstn. unfold rows_per_page. lia.
Qed.

(** The reconciler walks the original's rows; when the edited frame is
    shorter, the rows they share go through and the next one is not found
    in the edited frame. *)
Lemma reconcile_shorter_edited o e u :
  columns_match o e -> single u (columns o) -> len e < len o ->
  reconcile o e u = Raise (KeyError (LRow (len e))).
Proof.
  intros Hm Hu Hlen. unfold reconcile, reset_index.
  replace (len o) with (len e + S (len o - S (len e))) by lia.
  rewrite seq_app, for_range_app.
  rewrite (for_range_fold _ (step_spec o e u)).
  - cbn [rbind seq for_range Nat.add]. unfold row_step.
    rewrite (loc_in_range o (len e)) by lia.
    now rewrite (loc_out_of_range e (len e)) by lia.
  - intros i st Hi. apply in_seq in Hi.
    apply row_step_spec; try assumption; [now right | lia | lia].
Qed.

(** C10.  The save action passes the whole filtered snapshot as the
    original and the edited page as the edited snapshot.  The page has at
    most three rows, so when the filtered snapshot has more, the edited
    frame is shorter than the original and the reconciler's row look-up
    raises a key error at the first position beyond the page; nothing is
    sent to the database. *)
Theorem save_beyond_one_page_fails run_sql (df1_filtered edited_df1 : DataFrame)
  (page_structure : nat) (w : world) :
  NoDup (columns df1_filtered) ->
  In "CODE" (columns df1_filtered) ->
  edited_from (df1_page df1_filtered page_structure) edited_df1 ->
  rows_per_page < len df1_filtered ->
  len edited_df1 <= rows_per_page
  /\ len edited_df1 < len df1_filtered
  /\ reconcile df1_filtered edited_df1 "CODE"
     = Raise (KeyError (LRow (len edited_df1)))
  /\ save_changes run_sql df1_filtered edited_df1 w
     = (Raise (KeyError (LRow (len edited_df1))), w).
Proof.
  intros Hnd Hcode [Hcols Hrows] Hlen.
  assert (Hpage : len edited_df1 <= rows_per_page).
  { rewrite Hrows. apply len_df1_page. }
  assert (Hrec : reconcile df1_filtered edited_df1 "CODE"
                 = Raise (KeyError (LRow (len edited_df1)))).
  { apply reconcile_shorter_edited.
    - split; [assumption|]. intros c Hc. rewrite Hcols. simpl.
      now apply single_of_NoDup.
    - now apply single_of_NoDup.
    - lia. }
  repeat split; trivial; [lia|].
  unfold save_changes, update_changed_cells, mbind, lift. now rewrite Hrec.
Qed.

Lemma save_beyond_one_page_fails_witness :
  len first_page_edited <= rows_per_page
  /\ len first_page_edited < len four_rows
  /\ reconcile four_rows first_page_edited "CODE" = Raise (KeyError (LRow 3))
  /\ save_changes sql_server four_rows first_page_edited
       (initial_world true [("SampleTest", four_rows)])
     = (Raise (KeyError (LRow 3)),
        initial_world true [("SampleTest", four_rows)]).
Proof.
  assert (Hnd : NoDup (columns four_rows)).
  { simpl. repeat constructor; simpl; intuition discriminate. }
  assert (Hcode : In "CODE" (columns four_rows)) by (simpl; tauto).
  assert (Hpage : edited_from (df1_page four_rows 0) first_page_edited).
  { split; reflexivity. }
  assert (Hlen : rows_per_page < len four_rows) by (vm_compute; lia).
  exact (save_beyond_one_page_fails sql_server four_rows first_page_edited 0
           (initial_world true [("SampleTest", four_rows)])
           Hnd Hcode Hpage Hlen).
Defined.

(** * Further properties of the code *)

(** ** The reconciler's inputs *)

Lemma for_range_ext body body' idxs :
  forall st,
    (forall i st', In i idxs -> body st' i = body' st' i) ->
    for_range body idxs st = for_range body' idxs st.
Proof.
  induction idxs as [|i idxs IH]; intros st H; simpl; [reflexivity|].
  rewrite <- (H i st) by now left.
  destruct (body st i); simpl; [|reflexivity].
  apply IH. intros; apply H; now right.
Qed.

Lemma nth_error_firstn_lt {A} (l : list A) :
  forall n i, i < n -> nth_error (firstn n l) i = nth_error l i.
Proof.
  induction l as [|x l IH]; intros n i H.
  - now rewrite firstn_nil.
  - destruct n; [lia|]. destruct i; simpl; [reflexivity|].
    apply IH. lia.
Qed.

(** Rows of the edited frame beyond the original's length are never read
    (line 62 walks [range(len(original_df))]): cutting the edited frame to
    the original's length changes nothing, whatever the frames hold. *)
Theorem reconcile_ignores_extra_rows (o e : DataFrame) (u : string) :
  reconcile o e u = reconcile o (truncate (len o) e) u.
Proof.
  unfold reconcile, reset_index. apply for_range_ext.
  intros i st Hi. apply in_seq in Hi. unfold row_step, loc, truncate. simpl.
  rewrite nth_error_firstn_lt by lia. reflexivity.
Qed.

Lemma row_step_key_missing o e u st i :
  columns_match o e -> ~ In u (columns o) ->
  i < len o -> i < len e -> changed_columns o e i <> [] ->
  row_step o e u st i = Raise (KeyError (LCol u)).
Proof.
  intros [Hnd Hcols] Hu Ho He Hch.
  unfold row_step, changed_columns, cell in *.
  rewrite (loc_in_range o i Ho), (loc_in_range e i He). simpl.
  rewrite scan_columns_spec; [simpl|assumption|].
  - destruct (filter _ (columns o)) as [|c cs]; [contradiction|]. simpl.
    unfold getitem. simpl. rewrite select_absent; [reflexivity|].
    now apply count_occ_not_In.
  - intros c Hc. repeat split; auto using single_of_NoDup.
Qed.

Lemma for_range_key_missing o e u idxs :
  columns_match o e -> ~ In u (columns o) ->
  (forall i, In i idxs -> i < len o /\ i < len e) ->
  forall st,
    for_range (row_step o e u) idxs st
    = match flat_map (fun i => map (pair i) (changed_columns o e i)) idxs with
      | [] => Ok st
      | _ :: _ => Raise (KeyError (LCol u))
      end.
Proof.
  intros Hm Hu. induction idxs as [|i idxs IH]; intros Hin st; simpl;
    [reflexivity|].
  destruct (Hin i (or_introl eq_refl)) as [Ho He].
  destruct (changed_columns o e i) as [|c cs] eqn:Ech.
  - rewrite row_step_spec by (try assumption; now left).
    unfold step_spec, row_changes_spec. rewrite Ech. simpl.
    apply IH. intros; apply Hin; now right.
  - rewrite row_step_key_missing; try assumption; [reflexivity|].
    now rewrite Ech.
Qed.

(** The unique column is looked up only when a row has a change (line 72):
    with a unique column that the original does not have, the reconciler
    returns no change when no cell compares unequal, the cells being read
    from their rows, and raises a key error for that column as soon as one
    does. *)
Theorem reconcile_without_unique_column (o e : DataFrame) (u : string) :
  columns_match o e ->
  len o <= len e ->
  ~ In u (columns o) ->
  reconcile o e u
  = match reported_cells o e with
    | [] => Ok ([], [])
    | _ :: _ => Raise (KeyError (LCol u))
    end.
Proof.
  intros Hm Hlen Hu. unfold reconcile, reset_index, reported_cells.
  apply for_range_key_missing; try assumption.
  intros i Hi. apply in_seq in Hi. lia.
Qed.

Lemma reconcile_without_unique_column_witness :
  reconcile A1_foo A1_bar "ID" = Raise (KeyError (LCol "ID"))
  /\ reconcile A1_foo A1_foo "ID" = Ok ([], []).
Proof.
  assert (Hm : forall rs rs', columns_match (mkFrame ["CODE"; "NAME"] rs)
                                           (mkFrame ["CODE"; "NAME"] rs')).
  { intros rs rs'. split.
    - simpl. repeat constructor; simpl; intuition discriminate.
    - intros c [<-|[<-|[]]]; reflexivity. }
  assert (Hu : ~ In "ID" ["CODE"; "NAME"]) by (simpl; intuition discriminate).
  split.
  - exact (reconcile_without_unique_column A1_foo A1_bar "ID"
             (Hm _ _) (le_n _) Hu).
  - exact (reconcile_without_unique_column A1_foo A1_foo "ID"
             (Hm _ _) (le_n _) Hu).
Defined.

Lemma scan_columns_app orow erow l1 l2 :
  forall d,
    scan_columns orow erow (l1 ++ l2) d
    = (d' <- scan_columns orow erow l1 d ;; scan_columns orow erow l2 d').
Proof.
  induction l1 as [|c l1 IH]; intros d; simpl; [reflexivity|].
  destruct (getitem orow c) as [x|]; simpl; [|reflexivity].
  destruct (isna_cond x) as [[|]|]; simpl; try reflexivity.
  - destruct (getitem erow c) as [y|]; simpl; [|reflexivity].
    destruct (isna_cond y) as [[|]|]; simpl; try reflexivity; [apply IH|].
    destruct (changed_to x y) as [[v|]|]; simpl; try reflexivity; apply IH.
  - destruct (getitem erow c) as [y|]; simpl; [|reflexivity].
    destruct (changed_to x y) as [[v|]|]; simpl; try reflexivity; apply IH.
Qed.

Lemma getitem_absent cols r c :
  ~ In c cols -> getitem (mkSeries cols r) c = Raise (KeyError (LCol c)).
Proof.
  intros H. unfold getitem. simpl. rewrite select_absent; [reflexivity|].
  now apply count_occ_not_In.
Qed.

(** A column of the original that the edited frame lacks stops the
    reconciler at the first row (lines 67-69 read [edited_row[col]]): with
    both frames non-empty it raises a key error for the first such column,
    and no change is produced. *)
Theorem reconcile_edited_lacks_column (o e : DataFrame) (u : string)
  (before : list string) (c : string) (after : list string) :
  columns o = before ++ c :: after ->
  NoDup (columns o) ->
  (forall c', In c' before -> single c' (columns e)) ->
  ~ In c (columns e) ->
  0 < len o -> 0 < len e ->
  reconcile o e u = Raise (KeyError (LCol c)).
Proof.
  intros Hcols Hnd Hbefore Hc Ho He.
  unfold reconcile, reset_index.
  destruct (len o) as [|n] eqn:En; [lia|]. cbn [seq for_range].
  unfold row_step.
  rewrite (loc_in_range o 0) by lia. rewrite (loc_in_range e 0 He). simpl.
  assert (Hsingle : forall c', In c' (columns o) -> single c' (columns o))
    by (intros; now apply single_of_NoDup).
  rewrite Hcols at 3. rewrite scan_columns_app.
  rewrite scan_columns_spec.
  - simpl. rewrite getitem_single
      by (apply Hsingle; rewrite Hcols, in_app_iff; simpl; tauto).
    simpl. rewrite (getitem_absent _ _ _ Hc).
    now destruct (isna _).
  - rewrite Hcols in Hnd. apply NoDup_app_remove_r in Hnd. exact Hnd.
  - intros c' Hc'. repeat split; auto.
    apply Hsingle. rewrite Hcols, in_app_iff. tauto.
Qed.

Lemma reconcile_edited_lacks_column_witness :
  reconcile shown_before A1_bar "CODE" = Raise (KeyError (LCol "QTY")).
Proof.
  apply (reconcile_edited_lacks_column shown_before A1_bar "CODE"
           ["CODE"; "NAME"] "QTY" []).
  - reflexivity.
  - simpl. repeat constructor; simpl; intuition discriminate.
  - intros c' [<-|[<-|[]]]; reflexivity.
  - simpl. intuition discriminate.
  - cbv; lia.
  - cbv; lia.
Defined.

Lemma changed_columns_ext o e e' i :
  (forall c, In c (columns o) -> cell e i c = cell e' i c) ->
  changed_columns o e i = changed_columns o e' i.
Proof.
  intros H. unfold changed_columns. apply filter_ext_in.
  intros c Hc. now rewrite H.
Qed.

Lemma row_changes_spec_ext o e e' u i :
  (forall c, In c (columns o) -> cell e i c = cell e' i c) ->
  row_changes_spec o e u i = row_changes_spec o e' u i.
Proof.
  intros H. unfold row_changes_spec.
  rewrite <- (changed_columns_ext o e e' i H).
  apply map_ext_in. intros c Hc. unfold changed_columns in Hc.
  apply filter_In in Hc. now rewrite H.
Qed.

Lemma fold_left_ext_in {A B} (f g : A -> B -> A) l :
  forall a, (forall x a', In x l -> f a' x = g a' x) ->
            fold_left f l a = fold_left g l a.
Proof.
  induction l as [|x l IH]; intros a H; simpl; [reflexivity|].
  rewrite (H x a) by now left. apply IH. intros; apply H; now right.
Qed.

Lemma flat_map_ext_in {A B} (f g : A -> list B) l :
  (forall x, In x l -> f x = g x) -> flat_map f l = flat_map g l.
Proof.
  induction l as [|x l IH]; intros H; simpl; [reflexivity|].
  rewrite (H x) by now left. f_equal. apply IH. intros; apply H; now right.
Qed.

(** The reconciler reads the edited frame only at the original's columns
    (line 66 walks [original_df.columns]) and the original's row
    positions: two edited frames whose rows read the same at those cells,
    whatever other columns or rows they have, give the same result. *)
Theorem reconcile_reads_original_cells_only (o e e' : DataFrame) (u : string) :
  columns_match o e -> columns_match o e' ->
  len o <= len e -> len o <= len e' ->
  (forall i c, i < len o -> In c (columns o) -> cell e i c = cell e' i c) ->
  reconcile o e u = reconcile o e' u.
Proof.
  intros Hm Hm' Hlen Hlen' Hcells.
  assert (Hch : forall i, In i (seq 0 (len o)) ->
                          changed_columns o e i = changed_columns o e' i).
  { intros i Hi. apply in_seq in Hi. apply changed_columns_ext.
    intros c Hc. apply Hcells; [lia|assumption]. }
  destruct (in_dec string_dec u (columns o)) as [Hu|Hu].
  - assert (Hs : single u (columns o))
      by (apply single_of_NoDup; [apply Hm | assumption]).
    destruct (reconcile_refines o e u Hm (or_intror Hs) Hlen) as [-> _].
    destruct (reconcile_refines o e' u Hm' (or_intror Hs) Hlen') as [-> _].
    f_equal. apply fold_left_ext_in. intros i st Hi.
    unfold step_spec. rewrite (row_changes_spec_ext o e e' u i); [reflexivity|].
    apply in_seq in Hi. intros c Hc. apply Hcells; [lia|assumption].
  - assert (Hrange : forall n, len o <= n ->
                       forall i, In i (seq 0 (len o)) -> i < len o /\ i < n).
    { intros n Hn i Hi. apply in_seq in Hi. lia. }
    unfold reconcile, reset_index.
    rewrite !for_range_key_missing by auto.
    replace (flat_map (fun i => map (pair i) (changed_columns o e' i))
               (seq 0 (len o)))
      with (flat_map (fun i => map (pair i) (changed_columns o e i))
              (seq 0 (len o))); [reflexivity|].
    apply flat_map_ext_in. intros i Hi. now rewrite (Hch i Hi).
Qed.

Lemma reconcile_reads_original_cells_only_witness :
  reconcile A1_foo A1_bar "CODE" = reconcile A1_foo A1_bar_wide "CODE".
Proof.
  apply (reconcile_reads_original_cells_only A1_foo A1_bar A1_bar_wide "CODE").
  - split.
    + simpl. repeat constructor; simpl; intuition discriminate.
    + intros c [<-|[<-|[]]]; reflexivity.
  - split.
    + simpl. repeat constructor; simpl; intuition discriminate.
    + intros c [<-|[<-|[]]]; reflexivity.
  - cbv; lia.
  - cbv; lia.
  - intros i c Hi Hc. cbv in Hi. assert (i = 0) as -> by lia.
    destruct Hc as [<-|[<-|[]]]; reflexivity.
Defined.

(** ** The update applier on every path *)

Lemma events_since_app w w' evs :
  trace w' = trace w ++ evs -> events_since w w' = evs.
Proof.
  intros H. unfold events_since. rewrite H.
  rewrite skipn_app, skipn_all, Nat.sub_diag. reflexivity.
Qed.

Lemma executed_app evs evs' :
  executed (evs ++ evs') = executed evs ++ executed evs'.
Proof.
  induction evs as [|ev evs IH]; simpl; [reflexivity|].
  destruct ev; simpl; now rewrite IH.
Qed.

Lemma executed_map_Execute {A} c (f : A -> statement) l :
  executed (map (fun x => Execute c (f x)) l) = map f l.
Proof.
  induction l as [|x l IH]; simpl; [reflexivity|]. now rewrite IH.
Qed.

Lemma committed_map_Execute {A} c (f : A -> statement) l evs :
  committed (map (fun x => Execute c (f x)) l ++ evs) = committed evs.
Proof.
  induction l as [|x l IH]; simpl; [reflexivity|]. exact IH.
Qed.

Lemma apply_changes_unreachable run_sql t u ks changes w :
  reachable w = false -> changes <> [] ->
  apply_changes run_sql t u ks changes w
  = (Raise (DatabaseError "connection failed"), w).
Proof.
  intros Hr Hne. destruct changes as [|c cs]; [contradiction|].
  unfold apply_changes, mbind at 1, get_connection. now rewrite Hr.
Qed.

(** With the server reachable, a non-empty batch returns normally: the
    statements of a first part of the changes were sent, then either the
    commit and the count, when that part is the whole, or one error. *)
Lemma apply_changes_reachable run_sql t u ks changes w :
  reachable w = true -> changes <> [] ->
  exists db sent rest tail,
    apply_changes run_sql t u ks changes w
    = (Ok tt,
       after_batch w db
         (map (fun c => Execute (next_conn w) (update_statement t u c)) sent
          ++ tail))
    /\ changes = sent ++ rest
    /\ executed tail = []
    /\ (committed tail = true -> rest = []).
Proof.
  intros Hr Hne.
  destruct (run_batch run_sql (map (update_statement t u) changes) (store w))
    as [db'|err] eqn:E.
  - destruct changes as [|c cs]; [contradiction|].
    rewrite (apply_changes_ok run_sql t u ks c cs w db' Hr E).
    exists db', (c :: cs), [], [Commit (next_conn w);
                               Ui (RowsUpdated (List.length ks));
                               CloseCursor (next_conn w); Close (next_conn w)].
    rewrite app_nil_r. repeat split.
  - destruct (run_batch_fails _ _ _ _ E)
      as (pre' & q & post' & v1 & Hq & Hpre & Hf).
    apply map_eq_app in Hq. destruct Hq as (pre & rest & -> & <- & Hrest).
    apply map_eq_cons in Hrest. destruct Hrest as (c & post & -> & <- & <-).
    rewrite (apply_changes_fails run_sql t u ks pre c post w v1 err
               Hr Hpre Hf).
    exists (if autocommit w then v1 else store w), (pre ++ [c]), post,
      [Ui (ErrorNotice err); CloseCursor (next_conn w); Close (next_conn w)].
    repeat split.
    + now rewrite <- app_assoc.
    + simpl. discriminate.
Qed.

Lemma drop_session_fresh w :
  fresh w -> drop_session (next_conn w) (sessions w) = sessions w.
Proof.
  unfold fresh, drop_session. intros H.
  induction (sessions w) as [|[c v] ss IH]; simpl; [reflexivity|].
  assert (c < next_conn w) by (apply (H c v); now left).
  destruct (Nat.eqb_spec c (next_conn w)); [lia|]. simpl.
  f_equal. apply IH. intros c' v' Hin. apply (H c' v'). now right.
Qed.

(** A connection failure is not among the errors the batch update reports
    ([get_connection] is called at line 81, before the [try]): when the
    server cannot be reached and there are changes to save, the operation
    raises the connection error, shows nothing and leaves the world as it
    was. *)
Theorem save_with_server_unreachable run_sql (o e : DataFrame) (t u : string)
  (ks : list value) (changes : list change) (w : world) :
  reconcile o e u = Ok (ks, changes) ->
  changes <> [] ->
  reachable w = false ->
  update_changed_cells run_sql o e t u w
  = (Raise (DatabaseError "connection failed"), w).
Proof.
  intros Hrec Hne Hr. unfold update_changed_cells, mbind, lift.
  rewrite Hrec. simpl. now apply apply_changes_unreachable.
Qed.

Lemma save_with_server_unreachable_witness :
  update_changed_cells sql_server A1_foo A1_bar "SampleTest" "CODE"
    (mkWorld false true [("SampleTest", A1_foo)] [] 0 [])
  = (Raise (DatabaseError "connection failed"),
     mkWorld false true [("SampleTest", A1_foo)] [] 0 []).
Proof.
  assert (Hne : [mkChange (VStr "A1") "NAME" (VStr "bar")] <> [])
    by discriminate.
  exact (save_with_server_unreachable sql_server A1_foo A1_bar
           "SampleTest" "CODE" [VStr "A1"]
           [mkChange (VStr "A1") "NAME" (VStr "bar")]
           (mkWorld false true [("SampleTest", A1_foo)] [] 0 [])
           eq_refl Hne eq_refl).
Defined.

(** The batch update leaves no connection behind, on any path (reconciler
    error, nothing to save, server unreachable, batch applied, batch
    failed): the open sessions after it are the open sessions before it. *)
Theorem update_changed_cells_keeps_sessions run_sql (o e : DataFrame)
  (t u : string) (w : world) :
  fresh w ->
  sessions (snd (update_changed_cells run_sql o e t u w)) = sessions w
  /\ fresh (snd (update_changed_cells run_sql o e t u w)).
Proof.
  intros Hf. unfold update_changed_cells, mbind, lift.
  destruct (reconcile o e u) as [[ks cs]|err]; simpl; [|now split].
  destruct cs as [|c cs]; [now split|].
  destruct (reachable w) eqn:Hr.
  - destruct (apply_changes_reachable run_sql t u ks (c :: cs) w Hr)
      as (db & sent & rest & tail & -> & _); [discriminate|].
    simpl. rewrite drop_session_fresh by assumption. split; [reflexivity|].
    unfold fresh in *. simpl. rewrite drop_session_fresh by assumption.
    intros c' v' Hin. specialize (Hf c' v' Hin). lia.
  - rewrite apply_changes_unreachable by (trivial; discriminate). now split.
Qed.

Lemma fresh_initial auto db : fresh (initial_world auto db).
Proof.
  intros c v [].
Qed.

Lemma update_changed_cells_keeps_sessions_witness :
  sessions (snd (update_changed_cells sql_server shown_before shown_after
                   "SampleTest" "CODE" (initial_world true narrow_db)))
  = sessions (initial_world true narrow_db)
  /\ fresh (snd (update_changed_cells sql_server shown_before shown_after
                   "SampleTest" "CODE" (initial_world true narrow_db))).
Proof.
  exact (update_changed_cells_keeps_sessions sql_server shown_before
           shown_after "SampleTest" "CODE" (initial_world true narrow_db)
           (fresh_initial true narrow_db)).
Defined.

(** The batch update sends nothing but the update statements of the
    reconciler's changes, in their order and without skipping any: what it
    executed is the statements of a first part of the changes, and it
    commits only when that part is the whole.  When the reconciler raises,
    nothing is executed. *)
Theorem update_changed_cells_sends_only_updates run_sql (o e : DataFrame)
  (t u : string) (w : world) :
  let evs := events_since w (snd (update_changed_cells run_sql o e t u w)) in
  match reconcile o e u with
  | Raise _ => executed evs = [] /\ committed evs = false
  | Ok (_, changes) =>
      exists sent rest,
        changes = sent ++ rest
        /\ executed evs = map (update_statement t u) sent
        /\ (committed evs = true -> rest = [])
  end.
Proof.
  unfold update_changed_cells, mbind, lift.
  destruct (reconcile o e u) as [[ks cs]|err]; simpl.
  - destruct cs as [|c cs].
    + exists [], []. simpl.
      rewrite (events_since_app w _ [Ui NoChangesToSave]) by reflexivity.
      repeat split; try discriminate.
    + destruct (reachable w) eqn:Hr.
      * destruct (apply_changes_reachable run_sql t u ks (c :: cs) w Hr)
          as (db & sent & rest & tail & -> & Hcs & Hex & Hco);
          [discriminate|].
        exists sent, rest. simpl.
        erewrite events_since_app by reflexivity. simpl.
        rewrite executed_app, executed_map_Execute, Hex, app_nil_r.
        rewrite committed_map_Execute. repeat split; assumption.
      * rewrite apply_changes_unreachable by (trivial; discriminate).
        exists [], (c :: cs). simpl.
        rewrite (events_since_app w w []) by now rewrite app_nil_r.
        repeat split; try discriminate.
  - rewrite (events_since_app w w []) by now rewrite app_nil_r. now split.
Qed.

Lemma Forall2_nil_iff {A B} (R : A -> B -> Prop) l1 l2 :
  Forall2 R l1 l2 -> (l1 = [] <-> l2 = []).
Proof.
  intros H. destruct H; split; intros; trivial; discriminate.
Qed.

(** The notice that there is nothing to save is the outcome exactly when no
    cell of the original compares unequal to the edited one, the cells
    being read from their rows (cells null on both sides apart): any cell
    that compares unequal leads to a connection attempt instead. *)
Theorem no_changes_notice_iff run_sql (o e : DataFrame) (t u : string)
  (w : world) :
  columns_match o e ->
  len o = len e ->
  In u (columns o) ->
  update_changed_cells run_sql o e t u w
  = (Ok tt, log (Ui NoChangesToSave) w)
  <-> (forall i c, i < len o -> In c (columns o) ->
                   differs (cell o i c) (cell e i c) = false).
Proof.
  intros Hm Hlen Hu.
  destruct (reconcile_reports o e u Hm Hlen Hu) as (ks & cs & Hrec & Hrep).
  assert (Hnone : reported_cells o e = []
                  <-> forall i c, i < len o -> In c (columns o) ->
                                  differs (cell o i c) (cell e i c) = false).
  { split.
    - intros Hnil i c Hi Hc.
      destruct (differs (cell o i c) (cell e i c)) eqn:E; [|reflexivity].
      assert (Hin : In (i, c) (reported_cells o e))
        by (apply reported_cells_iff; tauto).
      rewrite Hnil in Hin. contradiction.
    - intros Hall. destruct (reported_cells o e) as [|[i c] ps] eqn:E;
        [reflexivity|].
      assert (Hin : In (i, c) (reported_cells o e)) by (rewrite E; now left).
      apply reported_cells_iff in Hin. destruct Hin as (Hi & Hc & Hd).
      rewrite Hall in Hd by assumption. discriminate. }
  rewrite <- Hnone, (Forall2_nil_iff _ _ _ Hrep).
  unfold update_changed_cells, mbind, lift. rewrite Hrec. simpl.
  split.
  - intros Hout. destruct cs as [|c cs]; [reflexivity|]. exfalso.
    destruct (reachable w) eqn:Hr.
    + destruct (apply_changes_reachable run_sql t u ks (c :: cs) w Hr)
        as (db & sent & rest & tail & Heq & _); [discriminate|].
      rewrite Heq in Hout.
      apply (f_equal (fun r => trace (snd r))) in Hout. simpl in Hout.
      apply app_inv_head in Hout. discriminate.
    + rewrite apply_changes_unreachable in Hout by (trivial; discriminate).
      discriminate.
  - intros ->. reflexivity.
Qed.

Lemma no_changes_notice_iff_witness :
  update_changed_cells sql_server nulls_before nulls_after "SampleTest" "CODE"
    (initial_world true [("SampleTest", nulls_before)])
  = (Ok tt, log (Ui NoChangesToSave)
              (initial_world true [("SampleTest", nulls_before)]))
  <-> (forall i c, i < len nulls_before -> In c (columns nulls_before) ->
                   differs (cell nulls_before i c) (cell nulls_after i c)
                   = false).
Proof.
  apply (no_changes_notice_iff sql_server nulls_before nulls_after
           "SampleTest" "CODE").
  - apply three_columns_match.
  - reflexivity.
  - simpl; tauto.
Defined.

(** ** The schema mutator on every path *)

(** When the server cannot be reached, the schema mutator shows its error
    notice and then raises all the same: [get_connection] fails inside the
    [try] (line 104), so [cursor] is never bound and the [finally] clause's
    [cursor.close()] (line 112) raises.  The database and the sessions are
    untouched. *)
Theorem add_column_with_server_unreachable run_sql (t col : string)
  (w : world) :
  reachable w = false ->
  add_column_to_snowflake run_sql t col w
  = (Raise (UnboundLocalError "cursor"),
     log (Ui (AddColumnFailed (DatabaseError "connection failed"))) w).
Proof.
  intros Hr. unfold add_column_to_snowflake, get_connection. now rewrite Hr.
Qed.

Lemma add_column_with_server_unreachable_witness :
  add_column_to_snowflake sql_server "SampleTest" "NOTE"
    (mkWorld false true [("SampleTest", A1_foo)] [] 0 [])
  = (Raise (UnboundLocalError "cursor"),
     mkWorld false true [("SampleTest", A1_foo)] [] 0
       [Ui (AddColumnFailed (DatabaseError "connection failed"))]).
Proof.
  exact (add_column_with_server_unreachable sql_server "SampleTest" "NOTE"
           (mkWorld false true [("SampleTest", A1_foo)] [] 0 []) eq_refl).
Defined.

(** When the server rejects the statement, the schema mutator returns
    normally after one error notice; it never commits, the database is as
    it was in either commit mode, and its connection is closed. *)
Theorem add_column_rejected run_sql (t col : string) (w : world) (err : exn) :
  reachable w = true ->
  run_sql (AlterAddColumn t col) (store w) = Raise err ->
  add_column_to_snowflake run_sql t col w
  = (Ok tt,
     after_batch w (store w)
       [Execute (next_conn w) (AlterAddColumn t col);
        Ui (AddColumnFailed err);
        CloseCursor (next_conn w); Close (next_conn w)]).
Proof.
  intros Hr Hq. destruct w as [r a s ss n tr]; simpl in *. subst r.
  unfold add_column_to_snowflake, get_connection, cursor, finally, try_except.
  simpl. unfold mbind at 1. unfold execute. simpl. rewrite Nat.eqb_refl, Hq.
  simpl. unfold after_batch. settle_world.
Qed.

Lemma add_column_rejected_witness :
  add_column_to_snowflake sql_server "SampleTest" "NAME"
    (initial_world false [("SampleTest", A1_foo)])
  = (Ok tt,
     mkWorld true false [("SampleTest", A1_foo)] [] 1
       [Connect 0; OpenCursor 0;
        Execute 0 (AlterAddColumn "SampleTest" "NAME");
        Ui (AddColumnFailed (DatabaseError "column already exists"));
        CloseCursor 0; Close 0]).
Proof.
  exact (add_column_rejected sql_server "SampleTest" "NAME"
           (initial_world false [("SampleTest", A1_foo)])
           (DatabaseError "column already exists") eq_refl eq_refl).
Defined.

(** When the server accepts the statement, the schema mutator makes its
    effect durable in either commit mode (the commit of line 107 does it
    when the session is not in autocommit mode), shows the success notice
    and closes its connection. *)
Theorem add_column_accepted run_sql (t col : string) (w : world)
  (db' : database) (out : DataFrame) :
  reachable w = true ->
  run_sql (AlterAddColumn t col) (store w) = Ok (db', out) ->
  add_column_to_snowflake run_sql t col w
  = (Ok tt,
     after_batch w db'
       [Execute (next_conn w) (AlterAddColumn t col);
        Commit (next_conn w); Ui (ColumnAdded col);
        CloseCursor (next_conn w); Close (next_conn w)]).
Proof.
  intros Hr Hq. destruct w as [r a s ss n tr]; simpl in *. subst r.
  unfold add_column_to_snowflake, get_connection, cursor, finally, try_except.
  simpl. unfold mbind at 1. unfold execute. simpl. rewrite Nat.eqb_refl, Hq.
  destruct a;
    unfold mbind, commit, st_notice, set_store, set_sessions, log, after_batch;
    simpl; rewrite ?Nat.eqb_refl; simpl; rewrite ?Nat.eqb_refl; simpl;
    repeat rewrite <- app_assoc; reflexivity.
Qed.

Lemma add_column_accepted_witness :
  add_column_to_snowflake sql_server "SampleTest" "NOTE"
    (initial_world false [("SampleTest", A1_foo)])
  = (Ok tt,
     mkWorld true false
       [("SampleTest",
         mkFrame ["CODE"; "NAME"; "NOTE"] [[VStr "A1"; VStr "foo"]])]
       [] 1
       [Connect 0; OpenCursor 0;
        Execute 0 (AlterAddColumn "SampleTest" "NOTE");
        Commit 0; Ui (ColumnAdded "NOTE"); CloseCursor 0; Close 0]).
Proof.
  exact (add_column_accepted sql_server "SampleTest" "NOTE"
           (initial_world false [("SampleTest", A1_foo)])
           [("SampleTest",
             mkFrame ["CODE"; "NAME"; "NOTE"] [[VStr "A1"; VStr "foo"]])]
           (mkFrame [] []) eq_refl eq_refl).
Defined.

(** The schema mutator leaves no connection behind, on any path (server
    unreachable, statement rejected, statement accepted). *)
Theorem add_column_keeps_sessions run_sql (t col : string) (w : world) :
  fresh w ->
  sessions (snd (add_column_to_snowflake run_sql t col w)) = sessions w.
Proof.
  intros Hf. destruct (reachable w) eqn:Hr.
  - rewrite add_column_releases by assumption. now apply drop_session_fresh.
  - unfold add_column_to_snowflake, get_connection. now rewrite Hr.
Qed.

Lemma add_column_keeps_sessions_witness :
  sessions (snd (add_column_to_snowflake sql_server "SampleTest" "NAME"
                   (initial_world true [("SampleTest", A1_foo)])))
  = sessions (initial_world true [("SampleTest", A1_foo)]).
Proof.
  exact (add_column_keeps_sessions sql_server "SampleTest" "NAME"
           (initial_world true [("SampleTest", A1_foo)])
           (fresh_initial true _)).
Defined.

(** ** The table reader *)

(** When the query succeeds, the table reader returns the rows the server
    sent and closes its connection: the open sessions are those from
    before the call. *)
Theorem get_data_returns_and_closes run_sql (table : string) (w : world)
  (db' : database) (df : DataFrame) :
  fresh w ->
  reachable w = true ->
  run_sql (SelectAll table) (store w) = Ok (db', df) ->
  get_data run_sql table w
  = (Ok df,
     mkWorld (reachable w) (autocommit w)
       (if autocommit w then db' else store w)
       (sessions w) (S (next_conn w))
       (trace w ++ [Connect (next_conn w);
                    Execute (next_conn w) (SelectAll table);
                    Close (next_conn w)])).
Proof.
  intros Hf Hr Hq.
  assert (Hd := drop_session_fresh w Hf).
  destruct w as [r a s ss n tr]; simpl in *. subst r.
  unfold get_data, get_connection, read_sql, mbind, execute. simpl.
  rewrite Nat.eqb_refl, Hq.
  destruct a; unfold close, ret, set_store, set_sessions, log; simpl;
    rewrite ?Nat.eqb_refl; simpl; rewrite Hd;
    repeat rewrite <- app_assoc; reflexivity.
Qed.

Lemma get_data_returns_and_closes_witness :
  get_data sql_server "SampleTest" (initial_world true [("SampleTest", A1_foo)])
  = (Ok A1_foo,
     mkWorld true true [("SampleTest", A1_foo)] [] 1
       [Connect 0; Execute 0 (SelectAll "SampleTest"); Close 0]).
Proof.
  exact (get_data_returns_and_closes sql_server "SampleTest"
           (initial_world true [("SampleTest", A1_foo)])
           [("SampleTest", A1_foo)] A1_foo
           (fresh_initial true _) eq_refl eq_refl).
Defined.

(** ** Pagination *)

Lemma total_pages_bounds n :
  rows_per_page * total_pages n < n + rows_per_page
  /\ n <= rows_per_page * total_pages n.
Proof.
  unfold total_pages, rows_per_page.
  pose proof (Nat.div_mod_eq (n + 3 - 1) 3) as Hd.
  pose proof (Nat.mod_upper_bound (n + 3 - 1) 3) as Hm.
  lia.
Qed.

Lemma len_df1_page_exact df page :
  len (df1_page df page)
  = Nat.min rows_per_page (len df - page * rows_per_page).
Proof.
  unfold df1_page, iloc, len. simpl.
  rewrite length_firstn, length_skipn.
  replace (page * rows_per_page + rows_per_page - page * rows_per_page)
    with rows_per_page by lia.
  reflexivity.
Qed.

(** Page [p] shows rows exactly when [p] is below the page count of line
    154; every page but the last shows three rows, and a page number at or
    beyond the count (it is kept in the session state while the filter
    narrows the rows) shows none. *)
Theorem page_has_rows_iff (df : DataFrame) (page : nat) :
  (0 < len (df1_page df page) <-> page < total_pages (len df))
  /\ (S page < total_pages (len df) ->
      len (df1_page df page) = rows_per_page)
  /\ (total_pages (len df) <= page -> rows (df1_page df page) = []).
Proof.
  pose proof (total_pages_bounds (len df)) as [Hlo Hhi].
  pose proof (len_df1_page_exact df page) as Hlen.
  unfold rows_per_page in *.
  repeat split.
  - intros H. assert (page * 3 < len df) by lia.
    apply Nat.nle_gt. intros Hle.
    assert (3 * total_pages (len df) <= 3 * page)
      by (apply Nat.mul_le_mono_l; exact Hle).
    lia.
  - intros H. assert (3 * S page <= 3 * total_pages (len df))
      by (apply Nat.mul_le_mono_l; exact H).
    lia.
  - intros H. assert (3 * S (S page) <= 3 * total_pages (len df))
      by (apply Nat.mul_le_mono_l; exact H).
    lia.
  - intros H. assert (3 * total_pages (len df) <= 3 * page)
      by (apply Nat.mul_le_mono_l; exact H).
    assert (Hz : len (df1_page df page) = 0) by lia.
    unfold len in Hz. now apply length_zero_iff_nil.
Qed.

Lemma skipn_skipn_add {A} (l : list A) :
  forall m n, skipn m (skipn n l) = skipn (n + m) l.
Proof.
  induction l as [|x l IH]; intros m n.
  - now rewrite !skipn_nil.
  - destruct n; simpl; [reflexivity|]. apply IH.
Qed.

Lemma chunks_concat {A} (k : nat) :
  forall l : list A,
    List.length l <= rows_per_page * k ->
    List.concat (map (fun p => firstn rows_per_page (skipn (p * rows_per_page) l))
              (seq 0 k))
    = l.
Proof.
  unfold rows_per_page.
  induction k as [|k IH]; intros l Hl.
  - simpl. destruct l; [reflexivity|simpl in Hl; lia].
  - change (seq 0 (S k)) with (0 :: seq 1 k). rewrite <- seq_shift.
    cbn [map List.concat]. rewrite map_map.
    transitivity (firstn 3 l ++ skipn 3 l); [|apply firstn_skipn].
    f_equal.
    etransitivity; [|apply (IH (skipn 3 l)); rewrite length_skipn; lia].
    f_equal. apply map_ext. intros p.
    rewrite skipn_skipn_add.
    now replace (S p * 3) with (3 + p * 3) by lia.
Qed.

(** The pages of a frame, taken in order up to the page count, are its
    rows: no row is shown twice and none is left out. *)
Theorem pages_cover_the_rows (df : DataFrame) :
  List.concat (map (fun p => rows (df1_page df p)) (seq 0 (total_pages (len df))))
  = rows df.
Proof.
  rewrite <- (chunks_concat (total_pages (len df)) (rows df))
    by apply total_pages_bounds.
  f_equal. apply map_ext. intros p. unfold df1_page, iloc. cbn [rows].
  now replace (p * rows_per_page + rows_per_page - p * rows_per_page)
    with rows_per_page by lia.
Qed.

(** The page number a button leaves is again a page that exists: starting
    at a page below the page count, or at page 0 when there is no page at
    all, Previous and Next stay there; with no page both buttons do
    nothing. *)
Theorem navigation_stays_in_range (prev_clicked next_clicked : bool)
  (page_structure : Z) (pages : nat) :
  (0 <= page_structure)%Z ->
  (page_structure < Z.of_nat pages \/ page_structure = 0)%Z ->
  let after_prev := on_previous prev_clicked page_structure in
  let after_next := on_next next_clicked page_structure pages in
  (0 <= after_prev)%Z
  /\ (after_prev < Z.of_nat pages \/ after_prev = 0)%Z
  /\ (0 <= after_next)%Z
  /\ (after_next < Z.of_nat pages \/ after_next = 0)%Z
  /\ (pages = 0 -> after_prev = page_structure /\ after_next = page_structure).
Proof.
  intros H0 Hrange. unfold on_previous, on_next.
  destruct prev_clicked, next_clicked; simpl;
    destruct (Z.ltb_spec 0 page_structure);
    destruct (Z.ltb_spec page_structure (Z.of_nat pages - 1));
    repeat split; lia.
Qed.

Lemma navigation_stays_in_range_witness :
  (0 <= on_previous true 2)%Z
  /\ (on_previous true 2 < Z.of_nat 3 \/ on_previous true 2 = 0)%Z
  /\ (0 <= on_next true 2 3)%Z
  /\ (on_next true 2 3 < Z.of_nat 3 \/ on_next true 2 3 = 0)%Z
  /\ (3 = 0 -> on_previous true 2 = 2%Z /\ on_next true 2 3 = 2%Z).
Proof.
  apply (navigation_stays_in_range true true 2 3); [lia | left; cbv; reflexivity].
Defined.

(** ** When the save action can work *)

(** The save action gets through the reconciler exactly when the filtered
    rows fit on one page and the first page is the one shown (or there are
    no rows at all): in every other case the edited page is shorter than
    the filtered snapshot and the row look-up of line 64 raises. *)
Theorem save_reconciles_iff_one_page (df1_filtered edited_df1 : DataFrame)
  (page_structure : nat) :
  NoDup (columns df1_filtered) ->
  In "CODE" (columns df1_filtered) ->
  edited_from (df1_page df1_filtered page_structure) edited_df1 ->
  (exists ks cs, reconcile df1_filtered edited_df1 "CODE" = Ok (ks, cs))
  <-> len df1_filtered <= rows_per_page
      /\ (page_structure = 0 \/ len df1_filtered = 0).
Proof.
  intros Hnd Hcode [Hcols Hrows].
  assert (Hm : columns_match df1_filtered edited_df1).
  { split; [assumption|]. intros c Hc. rewrite Hcols. simpl.
    now apply single_of_NoDup. }
  rewrite len_df1_page_exact in Hrows. unfold rows_per_page in *.
  split.
  - intros (ks & cs & Hrec).
    destruct (Nat.lt_ge_cases (len edited_df1) (len df1_filtered)) as [Hlt|Hge].
    + rewrite reconcile_shorter_edited in Hrec;
        [discriminate | assumption | now apply single_of_NoDup | assumption].
    + lia.
  - intros [Hfit Hpage].
    destruct (reconcile_reports df1_filtered edited_df1 "CODE" Hm)
      as (ks & cs & Hrec & _); [lia | assumption | eauto].
Qed.

Lemma save_reconciles_iff_one_page_witness :
  (exists ks cs, reconcile A1_foo A1_bar "CODE" = Ok (ks, cs))
  <-> len A1_foo <= rows_per_page /\ (0 = 0 \/ len A1_foo = 0).
Proof.
  apply (save_reconciles_iff_one_page A1_foo A1_bar 0).
  - simpl. repeat constructor; simpl; intuition discriminate.
  - simpl; tauto.
  - split; reflexivity.
Defined.

(** ** Reading, editing and saving on the reference server *)

Lemma position_inj cols :
  forall c c' j, position c cols = Some j -> position c' cols = Some j ->
                 c = c'.
Proof.
  induction cols as [|x cols IH]; intros c c' j; simpl; [discriminate|].
  destruct (String.eqb_spec x c) as [Hc|Hc];
    destruct (String.eqb_spec x c') as [Hc'|Hc'].
  - congruence.
  - intros [= <-]. destruct (position c' cols); discriminate.
  - destruct (position c cols); simpl; [intros [= <-]|]; discriminate.
  - destruct (position c cols) as [n|] eqn:E; simpl; [|discriminate].
    destruct (position c' cols) as [n'|] eqn:E'; simpl; [|discriminate].
    intros [= <-] [= ->]. now apply (IH c c' n).
Qed.

Lemma nth_set_cell j v :
  forall r j',
    nth j' (set_cell j v r) VNaN = if Nat.eqb j' j then v else nth j' r VNaN.
Proof.
  induction j as [|j IH]; intros r j'.
  - destruct r, j'; simpl; trivial. now destruct j'.
  - destruct r as [|x r], j' as [|j']; simpl; trivial.
    rewrite IH. now destruct j'; destruct (Nat.eqb _ j).
Qed.

Lemma find_put_table t T :
  forall db T0, find_table t db = Some T0 ->
                find_table t (put_table t T db) = Some T.
Proof.
  induction db as [|[t' T'] db IH]; intros T0; simpl; [discriminate|].
  destruct (String.eqb t' t) eqn:E; simpl; rewrite E; [reflexivity|].
  apply IH.
Qed.

Lemma find_put_table_other t T t' :
  t' <> t ->
  forall db, find_table t' (put_table t T db) = find_table t' db.
Proof.
  intros Hne. induction db as [|[t0 T0] db IH]; simpl; [reflexivity|].
  destruct (String.eqb_spec t0 t) as [->|Ht]; simpl.
  - now rewrite (proj2 (String.eqb_neq _ _) (not_eq_sym Hne)).
  - destruct (String.eqb t0 t'); [reflexivity|apply IH].
Qed.

(** A string read from a row is the string the frame stores there: the
    row's dtype changes numbers and NaN only. *)
Lemma nth_cast_from_string d i s :
  forall vs j k,
    nth j (cast_from d i k vs) VNaN = VStr s -> nth j vs VNaN = VStr s.
Proof.
  induction vs as [|v vs IH]; intros j k; simpl; [now destruct j|].
  destruct j as [|j]; simpl; [|apply IH].
  destruct d, v; simpl; trivial; discriminate.
Qed.

Lemma nth_pad_string n r j s :
  nth j (pad n r) VNaN = VStr s -> nth j r VNaN = VStr s.
Proof.
  unfold pad. rewrite nth_firstn.
  destruct (Nat.ltb j n); [|discriminate].
  destruct (Nat.lt_ge_cases j (List.length r)) as [Hlt|Hge].
  - now rewrite app_nth1.
  - rewrite app_nth2 by assumption. rewrite nth_repeat. discriminate.
Qed.

Lemma string_read_is_stored df i c s :
  cell df i c = VStr s -> stored df i c = VStr s.
Proof.
  unfold cell, stored, at_col, read_row.
  destruct (position c (columns df)); [|discriminate].
  intros H. apply nth_cast_from_string in H. now apply nth_pad_string in H.
Qed.

(** A cell of a table after one update statement. *)
Lemma cell_after_update T c u j k v key_val i c' :
  position c (columns T) = Some j ->
  position u (columns T) = Some k ->
  i < len T -> In c' (columns T) ->
  stored (mkFrame (columns T) (updated_rows j k v key_val (rows T))) i c'
  = if sql_eq (stored T i u) key_val && String.eqb c' c then v
    else stored T i c'.
Proof.
  intros Hj Hk Hi Hc'. unfold stored, at_col, updated_rows. simpl.
  rewrite Hk. destruct (position_in c' _ Hc') as [j' Hj']. rewrite Hj'.
  set (upd := fun r => if sql_eq (nth k r VNaN) key_val
                       then set_cell j v r else r).
  rewrite (nth_indep _ [] (upd [])) by (rewrite length_map; exact Hi).
  rewrite map_nth. unfold upd.
  destruct (sql_eq (nth k (nth i (rows T) []) VNaN) key_val); simpl;
    [|reflexivity].
  rewrite nth_set_cell.
  destruct (String.eqb_spec c' c) as [->|Hne].
  - assert (j' = j) as -> by congruence. now rewrite Nat.eqb_refl.
  - destruct (Nat.eqb_spec j' j) as [->|]; [|reflexivity].
    elim Hne. now apply (position_inj (columns T) c' c j).
Qed.

Lemma Forall2_reports_eq o e u ps cs :
  Forall2 (reports o e u) ps cs -> cs = map (change_at o e u) ps.
Proof.
  induction 1 as [|p c ps cs (Hk & Hc & Hv) _ IH]; simpl; [reflexivity|].
  rewrite <- IH. f_equal. destruct c as [k cl v]; simpl in *.
  unfold change_at. now subst.
Qed.

Section RoundTrip.

Variables (o e : DataFrame) (t u : string).

Hypothesis keys_are_strings :
  forall i, i < len o -> exists s, cell o i u = VStr s.

Hypothesis keys_distinct :
  forall i i', i < len o -> i' < len o -> cell o i u = cell o i' u -> i = i'.

Hypothesis key_column_present : In u (columns o).

Lemma key_selects_its_row i i' :
  i < len o -> i' < len o ->
  sql_eq (cell o i u) (cell o i' u) = true <-> i = i'.
Proof.
  intros Hi Hi'.
  destruct (keys_are_strings i Hi) as [s Hs].
  destruct (keys_are_strings i' Hi') as [s' Hs'].
  split.
  - intros H. apply keys_distinct; trivial. rewrite Hs, Hs' in *.
    unfold sql_eq in H. simpl in H. apply String.eqb_eq in H. now subst.
  - intros <-. rewrite Hs. unfold sql_eq. simpl. apply String.eqb_refl.
Qed.

(** The statements of a list of reported cells, none in the unique column,
    all succeed on a table keyed like the original, and leave every
    reported cell with its edited value and every other cell as it was. *)
Lemma run_batch_on_table ps :
  (forall p, In p ps ->
             fst p < len o /\ In (snd p) (columns o) /\ snd p <> u) ->
  forall db T,
    find_table t db = Some T -> keyed_like o u T ->
    exists db' T',
      run_batch sql_server
        (map (update_statement t u) (map (change_at o e u) ps)) db = Ok db'
      /\ find_table t db' = Some T'
      /\ keyed_like o u T'
      /\ (forall t', t' <> t -> find_table t' db' = find_table t' db)
      /\ (forall i c, i < len o -> In c (columns o) ->
                      (In (i, c) ps -> stored T' i c = cell e i c)
                      /\ (~ In (i, c) ps -> stored T' i c = stored T i c)).
Proof.
  induction ps as [|[i0 c0] ps IH]; intros Hps db T Hfind HT.
  - exists db, T. simpl. split; [reflexivity|]. split; [assumption|].
    split; [assumption|]. split; [reflexivity|].
    intros i c _ _. split; [contradiction|reflexivity].
  - destruct (Hps (i0, c0) (or_introl eq_refl)) as (Hi0 & Hc0 & Hu0).
    simpl in Hi0, Hc0, Hu0.
    destruct HT as (Hcols & Hlen & Hkey).
    destruct (position_in c0 (columns T)) as [j Hj]; [now rewrite Hcols|].
    destruct (position_in u (columns T)) as [k Hk]; [now rewrite Hcols|].
    set (T1 := mkFrame (columns T)
                 (updated_rows j k (cell e i0 c0) (cell o i0 u) (rows T))).
    assert (Hcell : forall i c, i < len o -> In c (columns o) ->
              stored T1 i c
              = if Nat.eqb i i0 && String.eqb c c0 then cell e i0 c0
                else stored T i c).
    { intros i c Hi Hc. unfold T1.
      rewrite (cell_after_update T c0 u j k) by
        (trivial; try (now rewrite Hlen); now rewrite Hcols).
      rewrite (Hkey i Hi).
      destruct (Nat.eqb_spec i i0) as [->|Hne].
      - now rewrite (proj2 (key_selects_its_row i0 i0 Hi0 Hi0) eq_refl).
      - destruct (sql_eq (cell o i u) (cell o i0 u)) eqn:E; [|reflexivity].
        apply key_selects_its_row in E; trivial. contradiction. }
    assert (HT1 : keyed_like o u T1).
    { repeat split; trivial.
      - unfold T1, len, updated_rows. simpl. now rewrite length_map.
      - intros i Hi. rewrite Hcell by assumption.
        destruct (String.eqb_spec u c0) as [E|_]; [now elim Hu0|].
        rewrite andb_false_r. now apply Hkey. }
    destruct (IH (fun p Hp => Hps p (or_intror Hp)) (put_table t T1 db) T1
                (find_put_table t T1 db T Hfind) HT1)
      as (db' & T' & Hrun & Hfind' & HT' & Hothers & Hcells).
    assert (Hdec : forall p q : nat * string, {p = q} + {p <> q})
      by (decide equality; [apply string_dec | apply Nat.eq_dec]).
    exists db', T'.
    split.
    { cbn [map run_batch]. unfold update_statement at 1, change_at at 1.
      cbn [sql_server column new_value key fst snd rbind].
      rewrite Hfind, Hj, Hk. exact Hrun. }
    split; [exact Hfind'|]. split; [exact HT'|].
    split.
    { intros t' Ht'. rewrite Hothers by assumption.
      now apply find_put_table_other. }
    intros i c Hi Hc. destruct (Hcells i c Hi Hc) as [Hin Hout].
    split.
    + intros [Heq|Hin']; [|now apply Hin].
      injection Heq as <- <-.
      destruct (in_dec Hdec (i0, c0) ps) as [Hyes|Hno]; [now apply Hin|].
      rewrite (Hout Hno), Hcell by assumption.
      now rewrite Nat.eqb_refl, String.eqb_refl.
    + intros Hnin. simpl in Hnin.
      rewrite Hout by tauto. rewrite Hcell by assumption.
      destruct (Nat.eqb_spec i i0) as [->|]; [|reflexivity].
      destruct (String.eqb_spec c c0) as [->|]; [|reflexivity].
      tauto.
Qed.

End RoundTrip.

(** Reading a table, editing cells on a page that shows all of it and
    saving bring the table to the edited values.  On the reference server,
    when the table is the original snapshot, the keys in the unique column
    are strings and pairwise distinct, and the unique column itself was not
    edited, the batch succeeds and afterwards every cell whose two reads
    compared unequal stores the value read from the edited row, every other
    cell stores what it did, and the other tables are untouched. *)
Theorem save_brings_table_to_edited (o e : DataFrame) (t u : string)
  (w : world) :
  columns_match o e ->
  len o = len e ->
  In u (columns o) ->
  (forall i, i < len o -> exists s, cell o i u = VStr s) ->
  (forall i i', i < len o -> i' < len o -> cell o i u = cell o i' u ->
                i = i') ->
  (forall i, i < len o -> cell e i u = cell o i u) ->
  reachable w = true ->
  find_table t (store w) = Some o ->
  exists w' T',
    update_changed_cells sql_server o e t u w = (Ok tt, w')
    /\ find_table t (store w') = Some T'
    /\ columns T' = columns o
    /\ len T' = len o
    /\ (forall i c, i < len o -> In c (columns o) ->
                    stored T' i c
                    = if differs (cell o i c) (cell e i c) then cell e i c
                      else stored o i c)
    /\ (forall t', t' <> t ->
                   find_table t' (store w') = find_table t' (store w)).
Proof.
  intros Hm Hlen Hu Hnn Hdist Hkey Hr Hfind.
  destruct (reconcile_reports o e u Hm Hlen Hu) as (ks & cs & Hrec & Hrep).
  apply Forall2_reports_eq in Hrep.
  assert (Hps : forall p, In p (reported_cells o e) ->
                  fst p < len o /\ In (snd p) (columns o) /\ snd p <> u).
  { intros [i c] Hin. apply reported_cells_iff in Hin.
    destruct Hin as (Hi & Hc & Hd). simpl. repeat split; trivial.
    intros ->. rewrite (Hkey i Hi), differs_same in Hd. discriminate. }
  destruct (run_batch_on_table o e t u Hnn Hdist Hu (reported_cells o e) Hps
              (store w) o Hfind)
    as (db' & T' & Hrun & Hfind' & (Hcols & Hlen' & _) & Hothers & Hcells).
  { repeat split. intros i Hi. destruct (Hnn i Hi) as [s Hs].
    rewrite Hs. now apply string_read_is_stored. }
  rewrite <- Hrep in Hrun.
  assert (Hout : exists w',
             update_changed_cells sql_server o e t u w = (Ok tt, w')
             /\ store w' = db').
  { unfold update_changed_cells, mbind, lift. rewrite Hrec. simpl.
    destruct cs as [|c cs].
    - simpl in Hrun. injection Hrun as <-. eexists. split; reflexivity.
    - rewrite (apply_changes_ok sql_server t u ks c cs w db' Hr Hrun).
      eexists. split; reflexivity. }
  destruct Hout as (w' & Hucc & Hstore).
  exists w', T'. rewrite Hstore.
  split; [exact Hucc|]. split; [exact Hfind'|]. split; [exact Hcols|].
  split; [exact Hlen'|]. split; [|exact Hothers].
  intros i c Hi Hc. destruct (Hcells i c Hi Hc) as [Hin Hnot].
  destruct (differs (cell o i c) (cell e i c)) eqn:Hd.
  - apply Hin. apply reported_cells_iff. tauto.
  - apply Hnot. rewrite reported_cells_iff. intros (_ & _ & E). congruence.
Qed.

Lemma save_brings_table_to_edited_witness :
  exists w' T',
    update_changed_cells sql_server order_before order_after
      "SampleTest" "CODE"
      (initial_world false [("SampleTest", order_before)])
    = (Ok tt, w')
    /\ find_table "SampleTest" (store w') = Some T'
    /\ columns T' = columns order_before
    /\ len T' = len order_before
    /\ (forall i c, i < len order_before -> In c (columns order_before) ->
                    stored T' i c
                    = if differs (cell order_before i c) (cell order_after i c)
                      then cell order_after i c
                      else stored order_before i c)
    /\ (forall t', t' <> "SampleTest" ->
                   find_table t' (store w')
                   = find_table t'
                       (store (initial_world false
                                 [("SampleTest", order_before)]))).
Proof.
  apply (save_brings_table_to_edited order_before order_after
           "SampleTest" "CODE"
           (initial_world false [("SampleTest", order_before)])).
  - apply three_columns_match.
  - reflexivity.
  - simpl; tauto.
  - intros i Hi. cbv in Hi.
    destruct i as [|[|i]]; [now exists "A1" | now exists "A2" | lia].
  - intros i i' Hi Hi'. cbv in Hi, Hi'.
    destruct i as [|[|i]], i' as [|[|i']]; try lia; trivial;
      vm_compute; discriminate.
  - intros i Hi. cbv in Hi.
    destruct i as [|[|i]]; [reflexivity | reflexivity | lia].
  - reflexivity.
  - reflexivity.
Defined.

(** ** Editing the unique column *)

Lemma run_batch_app run_sql qs1 qs2 :
  forall db,
    run_batch run_sql (qs1 ++ qs2) db
    = (db1 <- run_batch run_sql qs1 db ;; run_batch run_sql qs2 db1).
Proof.
  induction qs1 as [|q qs1 IH]; intros db; simpl; [reflexivity|].
  destruct (run_sql q db) as [[db1 out]|err]; simpl; [apply IH|reflexivity].
Qed.

(** Statements whose key no row of the table holds any more succeed and
    change no cell. *)
Lemma run_batch_no_row o e t u i0 ps :
  In u (columns o) ->
  (forall p, In p ps -> fst p = i0 /\ In (snd p) (columns o)) ->
  forall db T,
    find_table t db = Some T ->
    columns T = columns o ->
    (forall i, i < len T -> sql_eq (stored T i u) (cell o i0 u) = false) ->
    exists db' T',
      run_batch sql_server
        (map (update_statement t u) (map (change_at o e u) ps)) db = Ok db'
      /\ find_table t db' = Some T'
      /\ columns T' = columns o
      /\ len T' = len T
      /\ (forall t', t' <> t -> find_table t' db' = find_table t' db)
      /\ (forall i c, i < len T -> In c (columns o) ->
                      stored T' i c = stored T i c).
Proof.
  intros Hu. induction ps as [|[i c0] ps IH]; intros Hps db T Hfind Hcols Hdead.
  - exists db, T. simpl. repeat split; trivial.
  - destruct (Hps (i, c0) (or_introl eq_refl)) as (Hi & Hc0).
    simpl in Hi, Hc0. subst i.
    destruct (position_in c0 (columns T)) as [j Hj]; [now rewrite Hcols|].
    destruct (position_in u (columns T)) as [k Hk]; [now rewrite Hcols|].
    set (T1 := mkFrame (columns T)
                 (updated_rows j k (cell e i0 c0) (cell o i0 u) (rows T))).
    assert (Hlen1 : len T1 = len T).
    { unfold T1, len, updated_rows. simpl. now rewrite length_map. }
    assert (Hcell : forall i c, i < len T -> In c (columns o) ->
                                stored T1 i c = stored T i c).
    { intros i c Hi Hc. unfold T1.
      rewrite (cell_after_update T c0 u j k) by
        (trivial; now rewrite Hcols).
      now rewrite (Hdead i Hi). }
    destruct (IH (fun p Hp => Hps p (or_intror Hp)) (put_table t T1 db) T1
                (find_put_table t T1 db T Hfind) Hcols)
      as (db' & T' & Hrun & Hfind' & Hcols' & Hlen' & Hothers & Hcells).
    { intros i Hi. rewrite Hlen1 in Hi. rewrite Hcell by assumption.
      now apply Hdead. }
    exists db', T'.
    split.
    { cbn [map run_batch]. unfold update_statement at 1, change_at at 1.
      cbn [sql_server column new_value key fst snd rbind].
      rewrite Hfind, Hj, Hk. exact Hrun. }
    split; [exact Hfind'|]. split; [exact Hcols'|].
    split; [congruence|]. split.
    { intros t' Ht'. rewrite Hothers by assumption.
      now apply find_put_table_other. }
    intros i c Hi Hc. rewrite Hcells by (trivial; congruence).
    now apply Hcell.
Qed.

Lemma flat_map_nil {A B} (f : A -> list B) l :
  (forall x, In x l -> f x = []) -> flat_map f l = [].
Proof.
  induction l as [|x l IH]; simpl; intros H; [reflexivity|].
  rewrite (H x) by now left. apply IH. intros; apply H; now right.
Qed.

Lemma reported_cells_one_row o e i0 :
  i0 < len o ->
  (forall i, i < len o -> i <> i0 -> changed_columns o e i = []) ->
  reported_cells o e = map (pair i0) (changed_columns o e i0).
Proof.
  intros Hi0 Hidle. unfold reported_cells.
  replace (len o) with (i0 + S (len o - S i0)) by lia.
  rewrite seq_app, flat_map_app. cbn [seq flat_map Nat.add].
  rewrite !flat_map_nil.
  - now rewrite app_nil_r.
  - intros i Hi. apply in_seq in Hi. rewrite Hidle by lia. reflexivity.
  - intros i Hi. apply in_seq in Hi. rewrite Hidle by lia. reflexivity.
Qed.

Lemma NoDup_app_apart {A} (l1 l2 : list A) x :
  NoDup (l1 ++ l2) -> In x l1 -> In x l2 -> False.
Proof.
  induction l1 as [|a l1 IH]; simpl; intros Hnd H1 H2; [contradiction|].
  inversion Hnd as [|? ? Ha Hnd']; subst.
  destruct H1 as [->|H1]; [|now apply IH].
  apply Ha. apply in_or_app. now right.
Qed.

(** Editing a row's unique column together with a column that comes after
    it loses the later edit without any error.  Statements are sent in
    column order and all carry the original key (line 75); once the unique
    column's statement has changed the key, the statements that follow find
    no row.  On the reference server, with string keys and one row edited,
    the batch succeeds, the count notice is shown, and in that row the
    columns after the unique column store what they did before. *)
Theorem key_edit_loses_later_cells (o e : DataFrame) (t u : string)
  (w : world) (i0 : nat) (cols_before cols_after : list string) :
  columns_match o e ->
  len o = len e ->
  columns o = cols_before ++ u :: cols_after ->
  (forall i, i < len o -> exists s, cell o i u = VStr s) ->
  (forall i i', i < len o -> i' < len o -> cell o i u = cell o i' u ->
                i = i') ->
  i0 < len o ->
  (forall i c, i < len o -> i <> i0 -> In c (columns o) ->
               differs (cell o i c) (cell e i c) = false) ->
  differs (cell o i0 u) (cell e i0 u) = true ->
  reachable w = true ->
  find_table t (store w) = Some o ->
  exists w' T' n,
    update_changed_cells sql_server o e t u w = (Ok tt, w')
    /\ In (Ui (RowsUpdated n)) (trace w')
    /\ find_table t (store w') = Some T'
    /\ stored T' i0 u = cell e i0 u
    /\ (forall c, In c cols_after -> stored T' i0 c = stored o i0 c)
    /\ (forall c, In c cols_before ->
                  stored T' i0 c
                  = if differs (cell o i0 c) (cell e i0 c) then cell e i0 c
                    else stored o i0 c).
Proof.
  intros Hm Hlen Hcols Hnn Hdist Hi0 Honly Hkeyed Hr Hfind.
  assert (Hu : In u (columns o)) by (rewrite Hcols, in_app_iff; simpl; tauto).
  assert (Hnd : NoDup (cols_before ++ u :: cols_after))
    by (rewrite <- Hcols; apply Hm).
  destruct (NoDup_remove _ _ _ Hnd) as [_ Hnotin].
  rewrite in_app_iff in Hnotin.
  assert (Hin_b : forall c, In c cols_before -> In c (columns o))
    by (intros c Hc; rewrite Hcols, in_app_iff; tauto).
  assert (Hin_a : forall c, In c cols_after -> In c (columns o))
    by (intros c Hc; rewrite Hcols, in_app_iff; simpl; tauto).
  set (f := fun c => differs (cell o i0 c) (cell e i0 c)).
  set (ps1 := map (pair i0) (filter f cols_before)).
  set (ps2 := map (pair i0) (filter f cols_after)).
  assert (Hps : reported_cells o e = ps1 ++ (i0, u) :: ps2).
  { rewrite (reported_cells_one_row o e i0 Hi0).
    - unfold changed_columns. rewrite Hcols, filter_app. simpl.
      fold f. unfold f at 2. rewrite Hkeyed. now rewrite map_app.
    - intros i Hi Hne. apply filter_none. intros c Hc. now apply Honly. }
  destruct (reconcile_reports o e u Hm Hlen Hu) as (ks & cs & Hrec & Hrep).
  apply Forall2_reports_eq in Hrep. rewrite Hps in Hrep.
  (* the statements before the unique column's *)
  assert (Hps1 : forall p, In p ps1 ->
                   fst p < len o /\ In (snd p) (columns o) /\ snd p <> u).
  { intros p Hp. apply in_map_iff in Hp. destruct Hp as (c & <- & Hc).
    apply filter_In in Hc. simpl.
    split; [exact Hi0|]. split; [apply Hin_b, Hc|].
    intros ->. tauto. }
  assert (Hself : keyed_like o u o).
  { repeat split. intros i Hi. destruct (Hnn i Hi) as [s Hs].
    rewrite Hs. now apply string_read_is_stored. }
  destruct (run_batch_on_table o e t u Hnn Hdist Hu ps1 Hps1 (store w) o
              Hfind Hself)
    as (db1 & T1 & Hrun1 & Hfind1 & (Hc1 & Hl1 & Hk1) & _ & Hcells1).
  (* the unique column's own statement *)
  destruct (position_in u (columns T1)) as [k Hk]; [now rewrite Hc1|].
  set (T2 := mkFrame (columns T1)
               (updated_rows k k (cell e i0 u) (cell o i0 u) (rows T1))).
  assert (Hl2 : len T2 = len o).
  { unfold T2, len, updated_rows. simpl. rewrite length_map. exact Hl1. }
  assert (Hcell2 : forall i c, i < len o -> In c (columns o) ->
            stored T2 i c
            = if Nat.eqb i i0 && String.eqb c u then cell e i0 u
              else stored T1 i c).
  { intros i c Hi Hc. unfold T2.
    rewrite (cell_after_update T1 u u k k) by
      (trivial; try (now rewrite Hl1); now rewrite Hc1).
    rewrite (Hk1 i Hi).
    destruct (Nat.eqb_spec i i0) as [->|Hne].
    - now rewrite (proj2 (key_selects_its_row o u Hnn Hdist i0 i0 Hi0 Hi0)
                     eq_refl).
    - destruct (sql_eq (cell o i u) (cell o i0 u)) eqn:E; [|reflexivity].
      apply (key_selects_its_row o u Hnn Hdist) in E; trivial.
      contradiction. }
  (* the statements after it find no row *)
  assert (Hps2 : forall p, In p ps2 -> fst p = i0 /\ In (snd p) (columns o)).
  { intros p Hp. apply in_map_iff in Hp. destruct Hp as (c & <- & Hc).
    apply filter_In in Hc. simpl. split; [reflexivity|]. apply Hin_a, Hc. }
  assert (Hdead : forall i, i < len T2 ->
                            sql_eq (stored T2 i u) (cell o i0 u) = false).
  { intros i Hi. rewrite Hl2 in Hi. rewrite Hcell2 by assumption.
    destruct (Nat.eqb_spec i i0) as [->|Hne].
    - rewrite String.eqb_refl. simpl.
      destruct (Hnn i0 Hi0) as [s Hs]. rewrite Hs in *.
      unfold differs, py_ne in Hkeyed. unfold sql_eq.
      destruct (cell e i0 u); simpl in *; trivial.
      rewrite String.eqb_sym.
      now destruct (String.eqb s s0).
    - simpl. rewrite (Hk1 i Hi).
      destruct (sql_eq (cell o i u) (cell o i0 u)) eqn:E; [|reflexivity].
      apply (key_selects_its_row o u Hnn Hdist) in E; trivial.
      contradiction. }
  destruct (run_batch_no_row o e t u i0 ps2 Hu Hps2 (put_table t T2 db1) T2
              (find_put_table t T2 db1 T1 Hfind1) Hc1 Hdead)
    as (db' & T' & Hrun2 & Hfind' & _ & _ & _ & Hcells2).
  (* the whole batch *)
  assert (Hrun : run_batch sql_server (map (update_statement t u) cs)
                   (store w) = Ok db').
  { rewrite Hrep, !map_app, run_batch_app. fold ps1 in Hrun1.
    rewrite Hrun1. cbn [rbind map run_batch].
    unfold update_statement at 1, change_at at 1.
    cbn [sql_server column new_value key fst snd rbind].
    rewrite Hfind1, Hk. cbn [rbind fst]. exact Hrun2. }
  destruct cs as [|c cs'].
  { symmetry in Hrep. apply map_eq_nil in Hrep.
    destruct ps1; discriminate. }
  exists (after_batch w db'
            (map (fun c => Execute (next_conn w) (update_statement t u c))
               (c :: cs')
             ++ [Commit (next_conn w); Ui (RowsUpdated (List.length ks));
                 CloseCursor (next_conn w); Close (next_conn w)])),
    T', (List.length ks).
  split.
  { unfold update_changed_cells, mbind, lift. rewrite Hrec. simpl.
    exact (apply_changes_ok sql_server t u ks c cs' w db' Hr Hrun). }
  split.
  { unfold after_batch. cbn [trace]. apply in_or_app. right.
    right. right. apply in_or_app. right. simpl. tauto. }
  split; [exact Hfind'|].
  assert (Hfinal : forall x, In x (columns o) ->
                             stored T' i0 x = stored T2 i0 x).
  { intros x Hx. apply Hcells2; [now rewrite Hl2 | assumption]. }
  split; [|split].
  - rewrite Hfinal, Hcell2 by assumption.
    now rewrite Nat.eqb_refl, String.eqb_refl.
  - intros x Hx. rewrite Hfinal, Hcell2 by auto.
    destruct (String.eqb_spec x u) as [->|_]; [tauto|].
    rewrite andb_false_r.
    apply (proj2 (Hcells1 i0 x Hi0 (Hin_a x Hx))).
    unfold ps1. intros Hin. apply in_map_iff in Hin.
    destruct Hin as (x' & [= ->] & Hx'). apply filter_In in Hx'.
    apply NoDup_remove_1 in Hnd.
    exact (NoDup_app_apart _ _ x Hnd (proj1 Hx') Hx).
  - intros x Hx. rewrite Hfinal, Hcell2 by auto.
    destruct (String.eqb_spec x u) as [->|_]; [tauto|].
    rewrite andb_false_r.
    destruct (Hcells1 i0 x Hi0 (Hin_b x Hx)) as [Hyes Hno].
    destruct (differs (cell o i0 x) (cell e i0 x)) eqn:Hd.
    + apply Hyes. unfold ps1. apply in_map. apply filter_In.
      split; [assumption|exact Hd].
    + apply Hno. unfold ps1. intros Hin. apply in_map_iff in Hin.
      destruct Hin as (x' & [= ->] & Hx'). apply filter_In in Hx'.
      unfold f in Hx'. destruct Hx' as [_ Hx']. congruence.
Qed.

Lemma key_edit_loses_later_cells_witness :
  exists w' T' n,
    update_changed_cells sql_server key_before key_after "SampleTest" "CODE"
      (initial_world true [("SampleTest", key_before)])
    = (Ok tt, w')
    /\ In (Ui (RowsUpdated n)) (trace w')
    /\ find_table "SampleTest" (store w') = Some T'
    /\ stored T' 0 "CODE" = cell key_after 0 "CODE"
    /\ (forall c, In c ["NAME"; "QTY"] ->
                  stored T' 0 c = stored key_before 0 c)
    /\ (forall c, In c [] ->
                  stored T' 0 c
                  = if differs (cell key_before 0 c) (cell key_after 0 c)
                    then cell key_after 0 c
                    else stored key_before 0 c).
Proof.
  apply (key_edit_loses_later_cells key_before key_after "SampleTest" "CODE"
           (initial_world true [("SampleTest", key_before)]) 0
           [] ["NAME"; "QTY"]).
  - apply three_columns_match.
  - reflexivity.
  - reflexivity.
  - intros i Hi. cbv in Hi. destruct i; [now exists "A1"|lia].
  - intros i i' Hi Hi'. cbv in Hi, Hi'. lia.
  - cbv; lia.
  - intros i c Hi Hne. cbv in Hi. lia.
  - reflexivity.
  - reflexivity.
  - reflexivity.
Defined.
